(** * mev: text to video frames

    A shallow embedding of the layout engine of [mev.py]: the derived
    geometry of [TextToVideoGenerator.__init__], the emoji substitution of
    [convert_emojis_to_text], the greedy wrapper
    [wrap_text_with_emoji_support], the paginator [split_text_into_frames]
    and the text part of [generate_video].

    Python strings are sequences of Unicode code points: a character is a
    code point in [N], a string a list of them.  Python integers are [Z].
    Python floats are IEEE doubles: a finite double is held as the integer
    number of units of 2^-1074 it is made of, and every float operation of
    [__init__] rounds to nearest, ties to even.  The conversion of an
    integer too large for a double raises [OverflowError]; no other
    operation of [__init__] can leave the finite doubles (each result is at
    most its first operand in magnitude, or one more), so infinities and
    NaN are not modelled. *)

From Stdlib Require Import List ZArith NArith QArith Qround Qminmax Bool Lia.
From Stdlib Require Import String Ascii.
From Stdlib Require Decimal DecimalNat.
Import ListNotations.

Local Open Scope Z_scope.

(** ** Python strings *)

Definition char := N.
Definition str := list char.

(** An ASCII literal as a Python string. *)
Definition lit (x : string) : str := map N_of_ascii (list_ascii_of_string x).

Definition nonempty {A : Type} (l : list A) : bool :=
  match l with [] => false | _ :: _ => true end.

(** ** IEEE doubles *)

Module Float.

(** A finite double is held as an integer: its number of units of
    2^-1074, the smallest positive double. *)

(** 1.0, 0.5 and 1.5 *)
Definition one : Z := 2 ^ 1074.
Definition half : Z := 2 ^ 1073.
Definition one_and_half : Z := 3 * 2 ^ 1073.

(** 2^1024, from which on a magnitude is not a finite double. *)
Definition huge : Z := 2 ^ 2098.

(** The integer nearest to [p / d], the even one of two at the same
    distance; [0 < d]. *)
Definition rne (p d : Z) : Z :=
  let q := p / d in
  let r := p mod d in
  if 2 * r <? d then q
  else if d <? 2 * r then q + 1
  else if Z.even q then q else q + 1.

(** The double nearest to [p / d] units, for [0 <= p] and [0 < d]: 53
    significant bits, and never finer than one unit. *)
Definition round_pos (p d : Z) : Z :=
  let k := Z.max 0 (Z.log2 (p / d) - 52) in
  rne p (d * 2 ^ k) * 2 ^ k.

(** The double nearest to [p / d] units, [0 < d]: round to nearest, ties to
    even. *)
Definition round (p d : Z) : Z := Z.sgn p * round_pos (Z.abs p) d.

(** The double nearest to an integer. *)
Definition of_Z (n : Z) : Z := round (n * one) 1.

Definition add (a b : Z) : Z := round (a + b) 1.
Definition sub (a b : Z) : Z := round (a - b) 1.
Definition mul (a b : Z) : Z := round (a * b) one.
Definition div (a b : Z) : Z := round (Z.sgn b * a * one) (Z.abs b).

(** C's [fmod]: exact, with the sign of the first operand. *)
Definition fmod (a b : Z) : Z := Z.rem a b.

(** C's [floor] *)
Definition floor (a : Z) : Z := a / one * one.

(** The integer part, towards zero. *)
Definition trunc (a : Z) : Z := Z.quot a one.

(** The literal [0.8] *)
Definition c0_8 : Z := round (8 * one) 10.

(** The value of a double as a rational, in lowest terms. *)
Definition to_Q (a : Z) : Q := Qred (Qmake a (Z.to_pos one)).

End Float.

(** ** Exceptions *)

Inductive exn := ZeroDivisionError | OverflowError.

(** What evaluating an expression gives: a value, or an exception. *)
Inductive outcome (A : Type) := Ok (a : A) | Raise (e : exn).

Arguments Ok {A} a.
Arguments Raise {A} e.

Definition bind {A B : Type} (x : outcome A) (f : A -> outcome B)
  : outcome B :=
  match x with Ok a => f a | Raise e => Raise e end.

Notation "x <- c ;; k" := (bind c (fun x => k))
  (at level 61, c at next level, right associativity).

Module Py.

(** [str.isspace] on one character, also the whitespace of [str.split()]
    and [str.strip()]: CPython's [_PyUnicode_IsWhitespace]. *)
Definition isspace (c : char) : bool :=
  (((9 <=? c) && (c <=? 13)) || ((28 <=? c) && (c <=? 32))
   || (c =? 133) || (c =? 160) || (c =? 5760)
   || ((8192 <=? c) && (c <=? 8202))
   || (c =? 8232) || (c =? 8233) || (c =? 8239) || (c =? 8287)
   || (c =? 12288))%N.

Fixpoint lstrip (t : str) : str :=
  match t with
  | [] => []
  | c :: r => if isspace c then lstrip r else t
  end.

Definition rstrip (t : str) : str := rev (lstrip (rev t)).

(** [text.strip()] *)
Definition strip (t : str) : str := rstrip (lstrip t).

Definition cons_word (w : str) (ws : list str) : list str :=
  if nonempty w then w :: ws else ws.

(** The word being read at the head of the text, and the words after it. *)
Fixpoint split_go (t : str) : str * list str :=
  match t with
  | [] => ([], [])
  | c :: r =>
      let (w, ws) := split_go r in
      if isspace c then ([], cons_word w ws) else (c :: w, ws)
  end.

(** [text.split()]: the maximal runs of characters that are not
    whitespace. *)
Definition split (t : str) : list str :=
  let (w, ws) := split_go t in cons_word w ws.

(** [sep.join(parts)] *)
Fixpoint join (sep : str) (parts : list str) : str :=
  match parts with
  | [] => []
  | [p] => p
  | p :: ps => p ++ sep ++ join sep ps
  end.

Fixpoint starts_with (pre t : str) : bool :=
  match pre, t with
  | [], _ => true
  | _ :: _, [] => false
  | p :: pre', c :: r => (p =? c)%N && starts_with pre' r
  end.

(** The scan of [text.replace(old, new)] for a non-empty [old]: [skip]
    characters of a match found earlier are still to be passed over. *)
Fixpoint replace_go (old new : str) (skip : nat) (t : str) : str :=
  match t with
  | [] => []
  | c :: r =>
      match skip with
      | S k => replace_go old new k r
      | O =>
          if starts_with old t
          then new ++ replace_go old new (Nat.pred (List.length old)) r
          else c :: replace_go old new 0 r
      end
  end.

(** [text.replace(old, new)]: the occurrences of [old], found from the
    left and not overlapping; an empty [old] matches before every
    character and at the end. *)
Definition replace (old new t : str) : str :=
  match old with
  | [] => new ++ flat_map (fun c => c :: new) t
  | _ :: _ => replace_go old new 0 t
  end.

(** The piece being read at the head of the text, and the pieces after
    it, for the separator made of the two characters [a] [b]. *)
Fixpoint split2_go (a b : char) (t : str) : str * list str :=
  match t with
  | [] => ([], [])
  | c :: r =>
      match r with
      | d :: r' =>
          if ((c =? a) && (d =? b))%N
          then let (p, ps) := split2_go a b r' in ([], p :: ps)
          else let (p, ps) := split2_go a b r in (c :: p, ps)
      | [] => ([c], [])
      end
  end.

(** [text.split(sep)] for a separator of two characters. *)
Definition split2 (a b : char) (t : str) : list str :=
  let (p, ps) := split2_go a b t in p :: ps.

(** [float(n)] for an integer [n], as the arithmetic converts an integer
    operand: [OverflowError] when the nearest double is not finite. *)
Definition float_of_int (n : Z) : outcome Z :=
  let x := Float.of_Z n in
  if Float.huge <=? Z.abs x then Raise OverflowError else Ok x.

(** [int(x)] on a float: truncation towards zero. *)
Definition int (x : Z) : Z := Float.trunc x.

(** [n * x] for an integer [n] and a float [x] *)
Definition int_mul_float (n x : Z) : outcome Z :=
  a <- float_of_int n ;; Ok (Float.mul a x).

(** [vx // wx] on floats: CPython's [float_floor_div], with the quotient
    of its [_float_div_mod]. *)
Definition float_floor_div (vx wx : Z) : outcome Z :=
  if wx =? 0 then Raise ZeroDivisionError
  else
    let rest := Float.fmod vx wx in
    let div := Float.div (Float.sub vx rest) wx in
    let div :=
      if negb (rest =? 0) && negb (Bool.eqb (wx <? 0) (rest <? 0))
      then Float.sub div Float.one else div in
    if negb (div =? 0) then
      let floordiv := Float.floor div in
      if Float.half <? Float.sub div floordiv
      then Ok (Float.add floordiv Float.one) else Ok floordiv
    else Ok 0.

(** [n // wx] for an integer [n] and a float [wx] *)
Definition int_floordiv_float (n wx : Z) : outcome Z :=
  vx <- float_of_int n ;; float_floor_div vx wx.

(** [a // b] on integers; [None] is [ZeroDivisionError]. *)
Definition floordiv_int (a b : Z) : option Z :=
  if b =? 0 then None else Some (a / b).

(** [max(1, c)] for a float [c], as a rational: [c] when it is larger
    than 1, else the integer 1. *)
Definition max_1_float (c : Z) : Q :=
  if Float.one <? c then Float.to_Q c else 1%Q.

(** [a > b] for an integer [a] and a float [b]. *)
Definition gt_int_float (a : Z) (b : Q) : bool :=
  negb (Qle_bool (inject_Z a) b).

End Py.

(** ** Unicode character data

    [str.isalnum], [unicodedata.category] and
    [unicodedata.east_asian_width] read the tables of the Unicode database,
    which are not part of the program: the engine is parametrised by them. *)

Record UnicodeData := {
  isalnum : char -> bool;        (* [char.isalnum()] *)
  category_So : char -> bool;    (* [unicodedata.category(char) == 'So'] *)
  east_asian_FW : char -> bool;  (* [east_asian_width(char) in ('F', 'W')] *)
}.

Definition in_range (lo hi c : N) : bool := ((lo <=? c) && (c <=? hi))%N.

(** The rows of the Unicode tables for ASCII and for the pictograph blocks
    the emoji table draws from; the other code points are left narrow and
    not alphanumeric. *)
Definition ucd_basic : UnicodeData := {|
  isalnum c := in_range 48 57 c || in_range 65 90 c || in_range 97 122 c;
  category_So c :=
    in_range 0x2600 0x26FF c || in_range 0x1F300 0x1F3FA c
    || in_range 0x1F400 0x1F64F c || in_range 0x1F680 0x1F6C5 c
    || in_range 0x1F90C 0x1F93A c || in_range 0x1F947 0x1F9FF c
    || (c =? 0x2728)%N || (c =? 0x2764)%N || (c =? 0x2B50)%N;
  east_asian_FW c :=
    in_range 0x1100 0x115F c || in_range 0x3041 0x3096 c
    || in_range 0x3099 0x30FF c
    || in_range 0x4E00 0x9FFF c || in_range 0xAC00 0xD7A3 c
    || in_range 0xFF01 0xFF60 c || in_range 0x1F400 0x1F43E c
    || in_range 0x1F442 0x1F4FC c || in_range 0x1F600 0x1F64F c
    || (c =? 0x2B50)%N || (c =? 0x2728)%N;
|}.

(** ** The generator object *)

(** The attributes of [self] the engine reads; [chars_per_line] holds a
    float. *)
Record TextToVideoGenerator := {
  font_size : Z;
  width : Z;
  height : Z;
  convert_emojis : bool;
  text_width : Z;
  text_height : Z;
  chars_per_line : Q;
  lines_per_frame : Z;
}.

(** [__init__], statement by statement: the object, or the exception a
    conversion or a floor division raises. *)
Definition init_outcome (font_size width height : Z) (convert_emojis : bool)
  : outcome TextToVideoGenerator :=
  x <- Py.int_mul_float width Float.c0_8 ;;
  let text_width := Py.int x in
  y <- Py.int_mul_float height Float.c0_8 ;;
  let text_height := Py.int y in
  d <- Py.int_floordiv_float font_size Float.one_and_half ;;
  c <- Py.int_floordiv_float text_width d ;;
  match Py.floordiv_int text_height (font_size + 10) with
  | None => Raise ZeroDivisionError
  | Some l =>
      Ok {| font_size := font_size; width := width;
            height := height; convert_emojis := convert_emojis;
            text_width := text_width; text_height := text_height;
            chars_per_line := Py.max_1_float c;
            lines_per_frame := Z.max 1 l |}
  end.

(** [__init__]; [None] when it raises. *)
Definition init (font_size width height : Z) (convert_emojis : bool)
  : option TextToVideoGenerator :=
  match init_outcome font_size width height convert_emojis with
  | Ok self => Some self
  | Raise _ => None
  end.

(** ** Symbol substitution *)

(** [emoji_map], in the order the dictionary literal lists it (the order
    [items()] iterates in); the keys are written by code point. *)
Definition emoji_map : list (str * str) :=
  [
    ([0x1F44B], lit "[wave]");
    ([0x1F600], lit "[smile]");
    ([0x1F603], lit "[grin]");
    ([0x1F604], lit "[happy]");
    ([0x1F60A], lit "[smile]");
    ([0x1F680], lit "[rocket]");
    ([0x1F31F], lit "[star]");
    ([0x1F4BB], lit "[computer]");
    ([0x1F389], lit "[party]");
    ([0x1F3A8], lit "[art]");
    ([0x1F3AD], lit "[theater]");
    ([0x1F3AA], lit "[circus]");
    ([0x1F3AF], lit "[target]");
    ([0x1F3B2], lit "[dice]");
    ([0x1F3B8], lit "[guitar]");
    ([0x1F3BA], lit "[trumpet]");
    ([0x1F3BB], lit "[violin]");
    ([0x1F525], lit "[fire]");
    ([0x1F4A1], lit "[lightbulb]");
    ([0x1F4F1], lit "[phone]");
    ([0x1F4E7], lit "[email]");
    ([0x1F4C5], lit "[calendar]");
    ([0x1F4C8], lit "[chart]");
    ([0x1F3C6], lit "[trophy]");
    ([0x1F4A7], lit "[water]");
    ([0x2600; 0xFE0F], lit "[sun]");
    ([0x1F319], lit "[moon]");
    ([0x2B50], lit "[star]");
    ([0x2764; 0xFE0F], lit "[heart]");
    ([0x1F49B], lit "[yellow heart]");
    ([0x1F49A], lit "[green heart]");
    ([0x1F499], lit "[blue heart]");
    ([0x1F49C], lit "[purple heart]");
    ([0x1F333], lit "[tree]");
    ([0x1F332], lit "[evergreen]");
    ([0x1F34E], lit "[apple]");
    ([0x1F96A], lit "[sandwich]");
    ([0x2728], lit "[sparkles]");
    ([0x1F5BC; 0xFE0F], lit "[picture]");
    ([0x1F468; 0x200D; 0x1F4BB], lit "[man technologist]");
    ([0x1F469; 0x200D; 0x1F680], lit "[woman astronaut]");
    ([0x1F3F3; 0xFE0F; 0x200D; 0x1F308], lit "[rainbow flag]")
  ]%N.

(** [convert_emojis_to_text]: one [replace] per entry, each on the result
    of the one before. *)
Definition convert_emojis_to_text (text : str) : str :=
  fold_left (fun text e => Py.replace (fst e) (snd e) text) emoji_map text.

(** ** Line wrapping and pagination *)

Definition SPACE : str := [32%N].
Definition NEWLINE : str := [10%N].

(** The loop variables of [wrap_text_with_emoji_support]. *)
Record WrapState := {
  lines : list str;
  current_line : list str;
  current_width : Z;
}.

(** The loop variables of [split_text_into_frames]. *)
Record FrameState := {
  frames : list str;
  current_frame_lines : list str;
  current_line_count : Z;
}.

Section Engine.

Variable U : UnicodeData.

(** One turn of the loop over the characters of a word. *)
Definition add_char_width (word_width : Z) (c : char) : Z :=
  if category_So U c then word_width + 2
  else if east_asian_FW U c then word_width + 2
  else word_width + 1.

(** The loop over the characters of a word, from [word_width = 0]. *)
Definition word_width (word : str) : Z := fold_left add_char_width word 0.

(** The body of the loop over the words. *)
Definition wrap_step (width : Q) (st : WrapState) (word : str) : WrapState :=
  let word_width := word_width word in
  let space_width := if nonempty (current_line st) then 1 else 0 in
  if Py.gt_int_float (current_width st + word_width + space_width) width
     && nonempty (current_line st)
  then {| lines := lines st ++ [Py.join SPACE (current_line st)];
          current_line := [word];
          current_width := word_width |}
  else {| lines := lines st;
          current_line := current_line st ++ [word];
          current_width := current_width st + word_width + space_width |}.

Definition wrap_words (words : list str) (width : Q) : list str :=
  let st := fold_left (wrap_step width) words
              {| lines := []; current_line := []; current_width := 0 |} in
  if nonempty (current_line st)
  then lines st ++ [Py.join SPACE (current_line st)]
  else lines st.

(** [wrap_text_with_emoji_support] *)
Definition wrap_text_with_emoji_support (text : str) (width : Q) : list str :=
  wrap_words (Py.split text) width.

Variable self : TextToVideoGenerator.

(** The body of the loop over the wrapped lines of a paragraph. *)
Definition frame_add_line (st : FrameState) (line : str) : FrameState :=
  let st :=
    if (current_line_count st + 1 >? lines_per_frame self)
       && nonempty (current_frame_lines st)
    then {| frames := frames st ++ [Py.join NEWLINE (current_frame_lines st)];
            current_frame_lines := [];
            current_line_count := 0 |}
    else st in
  {| frames := frames st;
     current_frame_lines := current_frame_lines st ++ [line];
     current_line_count := current_line_count st + 1 |}.

(** The body of the loop over the paragraphs. *)
Definition frame_add_paragraph (st : FrameState) (paragraph : str)
  : FrameState :=
  let wrapped_lines :=
    wrap_text_with_emoji_support paragraph (chars_per_line self) in
  let st := fold_left frame_add_line wrapped_lines st in
  if current_line_count st <? lines_per_frame self
  then {| frames := frames st;
          current_frame_lines := current_frame_lines st ++ [[]];
          current_line_count := current_line_count st + 1 |}
  else st.

(** [[p.strip() for p in text.split("\n\n") if p.strip()]] *)
Definition paragraphs_of (text : str) : list str :=
  map Py.strip
    (filter (fun p => nonempty (Py.strip p)) (Py.split2 10%N 10%N text)).

(** The two loops of [split_text_into_frames] and its last lines, on the
    text after the substitution. *)
Definition frames_of_paragraphs (paragraphs : list str) : list str :=
  let st := fold_left frame_add_paragraph paragraphs
              {| frames := []; current_frame_lines := [];
                 current_line_count := 0 |} in
  let frames :=
    if nonempty (current_frame_lines st)
    then frames st ++ [Py.join NEWLINE (current_frame_lines st)]
    else frames st in
  if nonempty frames then frames else [[]].

(** [split_text_into_frames] *)
Definition split_text_into_frames (text : str) : list str :=
  let text := Py.strip text in
  if negb (nonempty text) then [[]]
  else
    let text :=
      if convert_emojis self then convert_emojis_to_text text else text in
    frames_of_paragraphs (paragraphs_of text).

(** The generator expression of [generate_video]: the characters outside
    the allow-list become spaces. *)
Definition allowed (c : char) : bool :=
  isalnum U c || Py.isspace c
  || existsb (N.eqb c) [63; 33; 39; 46; 44]%N.

Definition filter_text (text_content : str) : str :=
  map (fun c => if allowed c then c else 32%N) text_content.

(** The frames [generate_video] renders for the text it read. *)
Definition generate_video_frames (text_content : str) : list str :=
  let text_content := filter_text text_content in
  let text_content := Py.strip text_content in
  split_text_into_frames text_content.

(** The text whose paragraphs [generate_video] wraps: what the steps
    before the paragraph split leave of the text read. *)
Definition normalize (text_content : str) : str :=
  let text := Py.strip (Py.strip (filter_text text_content)) in
  if negb (nonempty text) then text
  else if convert_emojis self then convert_emojis_to_text text else text.

End Engine.

Arguments word_width U word : assert.
Arguments wrap_step U width st word : assert.
Arguments wrap_words U words width : assert.
Arguments wrap_text_with_emoji_support U text width : assert.

(** [a in b] on strings, for a non-empty [a]. *)
Fixpoint contains (a t : str) : bool :=
  Py.starts_with a t || match t with [] => false | _ :: r => contains a r end.

(** The lines a frame shows, [frame.split("\n")]; the empty frame shows
    none. *)
Fixpoint split_lines (cur : str) (t : str) : list str :=
  match t with
  | [] => [rev cur]
  | c :: r => if (c =? 10)%N then rev cur :: split_lines [] r
              else split_lines (c :: cur) r
  end.

Definition frame_lines (frame : str) : list str :=
  match frame with [] => [] | _ :: _ => split_lines [] frame end.

(** The number of lines a frame shows. *)
Definition line_count (frame : str) : Z :=
  Z.of_nat (List.length (frame_lines frame)).

(** ** The specification's wording *)

Module Spec.

(** [chars_per_line] as the specification words it:
    0.8·width / (font_size/1.5), floored, minimum 1. *)
Definition chars_per_line (width font_size : Z) : Z :=
  Z.max 1 (Qfloor (((8 # 10) * inject_Z width)
                   / (inject_Z font_size / (15 # 10)))).

(** [lines_per_frame] as the specification words it:
    0.8·height / (font_size+10), floored, minimum 1. *)
Definition lines_per_frame (height font_size : Z) : Z :=
  Z.max 1 (Qfloor (((8 # 10) * inject_Z height)
                   / inject_Z (font_size + 10))).

Section Wrap.

Variable U : UnicodeData.

(** The Width Estimator: 2 units for a character of category "symbol,
    other" or of East-Asian width Full-width or Wide, 1 otherwise. *)
Definition char_units (c : char) : Z :=
  if category_So U c || east_asian_FW U c then 2 else 1.

Fixpoint visual_width (text : str) : Z :=
  match text with
  | [] => 0
  | c :: r => char_units c + visual_width r
  end.

(** Greedy packing of the words left, given the words of the current
    line and its accumulated width. *)
Fixpoint greedy (budget : Q) (cur : list str) (cur_width : Z)
  (words : list str) : list str :=
  match words with
  | [] => match cur with [] => [] | _ :: _ => [Py.join SPACE cur] end
  | w :: rest =>
      let space := match cur with [] => 0 | _ :: _ => 1 end in
      match cur with
      | _ :: _ =>
          if Qlt_le_dec budget (inject_Z (cur_width + visual_width w + space))
          then Py.join SPACE cur :: greedy budget [w] (visual_width w) rest
          else greedy budget (cur ++ [w]) (cur_width + visual_width w + space) rest
      | [] => greedy budget [w] (cur_width + visual_width w + space) rest
      end
  end.

Definition wrap (text : str) (budget : Q) : list str :=
  greedy budget [] 0 (Py.split text).

End Wrap.

End Spec.

(** Conditions on the Unicode tables that hold of the Unicode database. *)

(** U+0020 is neither a symbol nor wide. *)
Definition narrow_space (U : UnicodeData) : Prop :=
  category_So U 32%N = false /\ east_asian_FW U 32%N = false.

(** Every key of [emoji_map] has a character outside the allow-list of
    [generate_video]: the pictographs are symbols, U+FE0F a mark and
    U+200D a format character. *)
Definition emoji_outside_allow_list (U : UnicodeData) : bool :=
  forallb (fun e => existsb (fun c => negb (allowed U c)) (fst e)) emoji_map.

(** The value [__init__] leaves in [chars_per_line] when no step raises. *)
Definition derived_chars_per_line (width font_size : Z) : Z :=
  Z.max 1 ((4 * width / 5) / (2 * font_size / 3)).

Definition not_space (c : char) : Prop := Py.isspace c = false.

(** A word of [split()]: not empty, no whitespace inside. *)
Definition is_word (w : str) : Prop := w <> [] /\ Forall not_space w.

(** A line of a frame that is not a spacer: not empty, no newline. *)
Definition is_line (l : str) : Prop := l <> [] /\ ~ In 10%N l.

(** The last lines of [wrap_text_with_emoji_support], on the state the loop
    leaves. *)
Definition finish (st : WrapState) : list str :=
  if nonempty (current_line st)
  then lines st ++ [Py.join SPACE (current_line st)]
  else lines st.

(** A frame buffer as the paginator builds it: lines are appended, and a
    spacer only ever follows a line. *)
Inductive good_buf (P : str -> Prop) : list str -> Prop :=
| good_nil : good_buf P []
| good_line buf l : good_buf P buf -> P l -> good_buf P (buf ++ [l])
| good_spacer buf l :
    good_buf P (buf ++ [l]) -> P l -> good_buf P ((buf ++ [l]) ++ [[]]).

(** A closed frame: the join of a non-empty buffer within the capacity. *)
Definition good_frame (P : str -> Prop) (cap : Z) (f : str) : Prop :=
  exists buf,
    buf <> [] /\ good_buf P buf /\ Z.of_nat (List.length buf) <= cap
    /\ f = Py.join NEWLINE buf.

(** The invariant of the loops of [split_text_into_frames]. *)
Definition frame_inv (P : str -> Prop) (cap : Z) (st : FrameState) : Prop :=
  current_line_count st = Z.of_nat (List.length (current_frame_lines st))
  /\ good_buf P (current_frame_lines st)
  /\ Z.of_nat (List.length (current_frame_lines st)) <= cap
  /\ Forall (good_frame P cap) (frames st).

Definition ends_with_line (P : str -> Prop) (st : FrameState) : Prop :=
  exists buf l, current_frame_lines st = buf ++ [l] /\ P l.

(** A line the wrapper yields for some paragraph at the width of [self]. *)
Definition wrapped_line (U : UnicodeData) (self : TextToVideoGenerator)
  (l : str) : Prop :=
  exists p, In l (wrap_text_with_emoji_support U p (chars_per_line self)).

(** The generator [main] builds by default: [init 32 1920 1080 true]. *)
Definition default_generator : TextToVideoGenerator :=
  {| font_size := 32; width := 1920; height := 1080; convert_emojis := true;
     text_width := 1536; text_height := 864;
     chars_per_line := 73; lines_per_frame := 20 |}.

(** A small geometry, 10 characters by 2 lines: [init 32 270 110 true]. *)
Definition small_generator : TextToVideoGenerator :=
  {| font_size := 32; width := 270; height := 110; convert_emojis := true;
     text_width := 216; text_height := 88;
     chars_per_line := 10; lines_per_frame := 2 |}.

(** The text "👋 hi". *)
Definition wave_hi : str := 0x1F44B%N :: lit " hi".

(** The text "👨‍💻": man, zero-width joiner, computer. *)
Definition man_technologist : str := [0x1F468; 0x200D; 0x1F4BB]%N.

(** The text "👩‍🚀": woman, zero-width joiner, rocket. *)
Definition woman_astronaut : str := [0x1F469; 0x200D; 0x1F680]%N.

(** Two paragraphs, "A B C" and "D E". *)
Definition two_paragraphs : str := lit "A B C" ++ [10; 10]%N ++ lit "D E".

(** ** Further definitions *)

(** A frame closed because it was full: the join of a buffer of exactly
    [n] lines. *)
Definition full_frame (P : str -> Prop) (n : Z) (f : str) : Prop :=
  exists buf,
    good_buf P buf /\ Z.of_nat (List.length buf) = n
    /\ f = Py.join NEWLINE buf.

(** The lines the paginator has placed so far, spacers included. *)
Definition lines_placed (st : FrameState) : list str :=
  flat_map frame_lines (frames st) ++ current_frame_lines st.

(** [split_text_into_frames] up to the paragraph split: the text is
    stripped, then substituted when [convert_emojis] is set. *)
Definition prepared_text (self : TextToVideoGenerator) (text : str) : str :=
  let text := Py.strip text in
  if convert_emojis self then convert_emojis_to_text text else text.

(** No character of [p] is a character of [new]. *)
Definition apart (p new : str) : Prop := forall c, In c p -> ~ In c new.

(** Keys and labels of a table are not empty, the keys are made of code
    points from 128 up and the labels of code points below 128. *)
Definition table_separated (m : list (str * str)) : bool :=
  forallb (fun e =>
             nonempty (fst e) && nonempty (snd e)
             && forallb (fun c => (128 <=? c)%N) (fst e)
             && forallb (fun c => (c <? 128)%N) (snd e)) m.

(** Every key of a table has a code point from U+2600 up. *)
Definition table_keys_high (m : list (str * str)) : bool :=
  forallb (fun e => existsb (fun c => (0x2600 <=? c)%N) (fst e)) m.

(** [emoji_fonts] of [find_emoji_compatible_font]. *)
Definition emoji_fonts : list str :=
  [ lit "/usr/share/fonts/noto/NotoSans-Regular.ttf";
    lit "/usr/share/fonts/noto/NotoSansSymbols-Regular.ttf";
    lit "/usr/share/fonts/noto/NotoSansSymbols2-Regular.ttf";
    lit "/usr/share/fonts/truetype/liberation/LiberationSans-Regular.ttf";
    lit "/usr/share/fonts/truetype/dejavu/DejaVuSans.ttf";
    lit "/usr/share/fonts/TTF/DejaVuSans.ttf" ].

(** [fallback] of [find_emoji_compatible_font]. *)
Definition fallback_font : str :=
  lit "/usr/share/fonts/truetype/dejavu/DejaVuSans.ttf".

(** The loop of [find_emoji_compatible_font]: the first font for which
    [os.path.exists] holds is returned; [None] when the loop ends. *)
Fixpoint first_existing (path_exists : str -> bool) (fonts : list str)
  : option str :=
  match fonts with
  | [] => None
  | font :: rest =>
      if path_exists font then Some font else first_existing path_exists rest
  end.

(** [find_emoji_compatible_font], given what [os.path.exists] answers. *)
Definition find_emoji_compatible_font (path_exists : str -> bool) : str :=
  match first_existing path_exists emoji_fonts with
  | Some font => font
  | None => fallback_font
  end.

(** The decimal digits of a [uint], as characters. *)
Fixpoint uint_digits (d : Decimal.uint) : str :=
  match d with
  | Decimal.Nil => []
  | Decimal.D0 d => 48%N :: uint_digits d
  | Decimal.D1 d => 49%N :: uint_digits d
  | Decimal.D2 d => 50%N :: uint_digits d
  | Decimal.D3 d => 51%N :: uint_digits d
  | Decimal.D4 d => 52%N :: uint_digits d
  | Decimal.D5 d => 53%N :: uint_digits d
  | Decimal.D6 d => 54%N :: uint_digits d
  | Decimal.D7 d => 55%N :: uint_digits d
  | Decimal.D8 d => 56%N :: uint_digits d
  | Decimal.D9 d => 57%N :: uint_digits d
  end.

(** [f"{i:04d}"] for an index [i] of [enumerate]: the decimal digits,
    filled with zeros on the left up to four characters. *)
Definition format_04d (i : nat) : str :=
  let digits := uint_digits (Nat.to_uint i) in
  repeat 48%N (4 - List.length digits) ++ digits.

(** [f"frame_{i:04d}.mp4"], the file name of frame [i] in
    [generate_video]. *)
Definition frame_file_name (i : nat) : str :=
  lit "frame_" ++ format_04d i ++ lit ".mp4".

(** The number a string of decimal digits writes, read from the left on
    top of [acc]. *)
Fixpoint digits_value (s : str) (acc : nat) : nat :=
  match s with
  | [] => acc
  | c :: r => digits_value r (10 * acc + (N.to_nat c - 48))
  end.

(** [os.path.exists] on a machine whose only font is the last candidate. *)
Definition only_ttf_dejavu (path : str) : bool :=
  if list_eq_dec N.eq_dec path (lit "/usr/share/fonts/TTF/DejaVuSans.ttf")
  then true else false.

(** * Properties *)

(** ** The derived geometry *)

Section Geometry.

Lemma rne_exact (q d : Z) : 0 < d -> Float.rne (q * d) d = q.
Proof.
  intros Hd. unfold Float.rne. rewrite Z.div_mul, Z.mod_mul by lia.
  replace (2 * 0 <? d) with true by (symmetry; apply Z.ltb_lt; lia).
  reflexivity.
Qed.

Lemma rne_ge (p d : Z) : 0 < d -> p / d <= Float.rne p d.
Proof.
  intros Hd. unfold Float.rne.
  destruct (2 * (p mod d) <? d); [lia|].
  destruct (d <? 2 * (p mod d)); [lia|].
  destruct (Z.even (p / d)); lia.
Qed.

Lemma rne_le (p d : Z) : 0 < d -> 2 * (Float.rne p d * d) <= 2 * p + d.
Proof.
  intros Hd. unfold Float.rne.
  pose proof (Z.div_mod p d ltac:(lia)) as E.
  pose proof (Z.mod_pos_bound p d Hd) as Hr.
  set (q := p / d) in *. set (r := p mod d) in *.
  destruct (Z.ltb_spec (2 * r) d); [nia|].
  destruct (Z.ltb_spec d (2 * r)); [nia|].
  destruct (Z.even q); nia.
Qed.

Lemma round_pos_exact (m j d : Z) :
  0 <= m < 2 ^ 53 -> 0 <= j -> 0 < d ->
  Float.round_pos (m * 2 ^ j * d) d = m * 2 ^ j.
Proof.
  intros Hm Hj Hd. unfold Float.round_pos. rewrite Z.div_mul by lia.
  set (N := m * 2 ^ j). set (k := Z.max 0 (Z.log2 N - 52)).
  assert (0 < 2 ^ j) as Hpj by (apply Z.pow_pos_nonneg; lia).
  assert (0 <= k <= j) as Hk.
  { subst k. destruct (Z.eq_dec N 0) as [->|HN]; [cbn; lia|].
    assert (0 < N) as HN' by (subst N; nia).
    assert (Z.log2 N < 53 + j); [|lia].
    apply Z.log2_lt_pow2; [exact HN'|].
    rewrite Z.pow_add_r by lia. subst N. nia. }
  assert (0 < 2 ^ k) as Hpk by (apply Z.pow_pos_nonneg; lia).
  assert (2 ^ j = 2 ^ (j - k) * 2 ^ k) as Ej.
  { rewrite <- Z.pow_add_r by lia. f_equal. lia. }
  replace (N * d) with (m * 2 ^ (j - k) * (d * 2 ^ k))
    by (subst N; rewrite Ej; ring).
  rewrite rne_exact by nia. subst N. rewrite Ej. symmetry. apply Z.mul_assoc.
Qed.

Lemma round_exact (m j d : Z) :
  Z.abs m < 2 ^ 53 -> 0 <= j -> 0 < d ->
  Float.round (m * 2 ^ j * d) d = m * 2 ^ j.
Proof.
  intros Hm Hj Hd. unfold Float.round.
  assert (0 < 2 ^ j) as Hpj by (apply Z.pow_pos_nonneg; lia).
  replace (Z.abs (m * 2 ^ j * d)) with (Z.abs m * 2 ^ j * d)
    by (rewrite !Z.abs_mul, (Z.abs_eq (2 ^ j)), (Z.abs_eq d) by lia;
        reflexivity).
  rewrite round_pos_exact by lia.
  replace (Z.sgn (m * 2 ^ j * d)) with (Z.sgn m).
  - rewrite Z.mul_assoc. f_equal. rewrite Z.mul_comm. apply Z.abs_sgn.
  - rewrite !Z.sgn_mul, (Z.sgn_pos (2 ^ j)), (Z.sgn_pos d) by lia. ring.
Qed.

Lemma round_opp (p d : Z) : Float.round (- p) d = - Float.round p d.
Proof.
  unfold Float.round. rewrite Z.sgn_opp, Z.abs_opp. ring.
Qed.

Lemma one_pow : Float.one = 2 ^ 1074.
Proof. reflexivity. Qed.

Lemma of_Z_exact (n : Z) : Z.abs n < 2 ^ 53 -> Float.of_Z n = n * Float.one.
Proof.
  intros Hn. unfold Float.of_Z. rewrite one_pow.
  rewrite <- (Z.mul_1_r (n * 2 ^ 1074)) at 1.
  apply round_exact; lia.
Qed.


Lemma c0_8_value : Float.c0_8 = 3602879701896397 * 2 ^ 1022.
Proof. vm_compute. reflexivity. Qed.

Lemma pow2_pos (k : Z) : 0 <= k -> 0 < 2 ^ k.
Proof. intros H. apply Z.pow_pos_nonneg; lia. Qed.

Lemma pow2_split (a b : Z) : 0 <= b <= a -> 2 ^ a = 2 ^ (a - b) * 2 ^ b.
Proof. intros H. rewrite <- Z.pow_add_r by lia. f_equal. lia. Qed.

(** [int(w * 0.8)] for a natural number below 2^50, given exactly as a
    double: the rounding of the product does not reach the next integer. *)
Lemma trunc_mul_0_8 (w : Z) :
  0 <= w < 2 ^ 50 ->
  Float.trunc (Float.mul (w * Float.one) Float.c0_8) = 4 * w / 5.
Proof.
  intros Hw. unfold Float.trunc, Float.mul. rewrite c0_8_value, one_pow.
  set (U := 2 ^ 1074). set (E := 2 ^ 1022). set (C := 3602879701896397).
  assert (U = E * 2 ^ 52) as HU by reflexivity.
  assert (0 < E) as HE by (apply pow2_pos; lia).
  assert (0 < U) as HUpos by (apply pow2_pos; lia).
  destruct (Z.eq_dec w 0) as [->|Hw0]; [reflexivity|].
  set (N := w * C * E).
  assert (0 < N) as HN by (subst N C; nia).
  replace (w * U * (C * E)) with (N * U) by (subst N; ring).
  unfold Float.round. rewrite Z.sgn_pos, Z.abs_eq, Z.mul_1_l by nia.
  unfold Float.round_pos. rewrite Z.div_mul by lia.
  set (k := Z.max 0 (Z.log2 N - 52)).
  assert (0 <= k <= 1071) as Hk.
  { subst k. assert (Z.log2 N < 1124); [|lia].
    apply Z.log2_lt_pow2; [exact HN|].
    change (2 ^ 1124) with (2 ^ 50 * 2 ^ 52 * E).
    subst N. assert (w * C < 2 ^ 50 * 2 ^ 52) by (subst C; nia). nia. }
  set (G := 2 ^ k).
  assert (0 < G) as HG by (apply pow2_pos; lia).
  assert (U = 2 ^ (1074 - k) * G) as HUG by (apply pow2_split; lia).
  assert (8 * G <= U) as HG8.
  { change 8 with (2 ^ 3). subst G U. rewrite <- Z.pow_add_r by lia.
    apply Z.pow_le_mono_r; lia. }
  set (n := 4 * w / 5).
  assert (exists r, 4 * w = 5 * n + r /\ 0 <= r <= 4) as [r [Hn Hr]].
  { exists ((4 * w) mod 5). subst n.
    pose proof (Z.div_mod (4 * w) 5 ltac:(lia)).
    pose proof (Z.mod_pos_bound (4 * w) 5 ltac:(lia)). lia. }
  set (R := Float.rne (N * U) (U * G) * G).
  assert (n * U <= R) as Hlow.
  { subst R. pose proof (rne_ge (N * U) (U * G) ltac:(nia)) as H.
    assert (n * 2 ^ (1074 - k) <= N * U / (U * G)) as H'.
    { apply Z.div_le_lower_bound; [nia|].
      assert (n * U <= N) as HnN.
      { assert (5 * N = 5 * (n * U) + r * U + w * E) as H5.
        { subst N C. rewrite HU.
          replace (5 * (n * (E * 2 ^ 52))) with ((5 * n) * (E * 2 ^ 52)) by ring.
          replace (5 * n) with (4 * w - r) by lia. ring. }
        nia. }
      rewrite HUG at 2.
      replace (U * G * (n * 2 ^ (1074 - k))) with (n * (2 ^ (1074 - k) * G) * U)
        by ring.
      rewrite <- HUG. nia. }
    rewrite HUG at 1.
    replace (n * (2 ^ (1074 - k) * G)) with (n * 2 ^ (1074 - k) * G) by ring.
    apply Z.mul_le_mono_nonneg_r; lia. }
  assert (R < (n + 1) * U) as Hup.
  { subst R. pose proof (rne_le (N * U) (U * G) ltac:(nia)) as H.
    set (q := Float.rne (N * U) (U * G)) in *.
    assert (2 * (q * G) <= 2 * N + G) as H2.
    { replace (2 * (q * (U * G))) with (U * (2 * (q * G))) in H by ring.
      replace (2 * (N * U) + U * G) with (U * (2 * N + G)) in H by ring.
      apply Z.mul_le_mono_pos_l in H; lia. }
    assert (5 * N = 5 * (n * U) + r * U + w * E) as H5.
    { subst N C. rewrite HU.
      replace (5 * (n * (E * 2 ^ 52))) with ((5 * n) * (E * 2 ^ 52)) by ring.
      replace (5 * n) with (4 * w - r) by lia. ring. }
    assert (4 * (w * E) < U) as HwE.
    { rewrite HU. change (2 ^ 52) with (4 * 2 ^ 50). nia. }
    assert (r * U <= 4 * U) by nia.
    set (a1 := n * U) in *. set (a2 := w * E) in *. set (a3 := r * U) in *.
    set (a4 := q * G) in *. lia. }
  rewrite Z.quot_div_nonneg by nia.
  subst n. symmetry. apply Z.div_unique with (r := R - 4 * w / 5 * U); [|ring].
  left. nia.
Qed.

Lemma floor_of_quot (a b : Z) :
  b <> 0 ->
  a / b =
  if negb (Z.rem a b =? 0) && negb (Bool.eqb (b <? 0) (Z.rem a b <? 0))
  then Z.quot a b - 1 else Z.quot a b.
Proof.
  intros Hb.
  pose proof (Z.quot_rem' a b) as E.
  pose proof (Z.rem_bound_abs a b Hb) as Habs.
  destruct (Z.eqb_spec (Z.rem a b) 0) as [H0|H0]; cbn [negb andb].
  - symmetry. apply Z.div_unique with (r := 0); lia.
  - destruct (Z.ltb_spec b 0), (Z.ltb_spec (Z.rem a b) 0); cbn [Bool.eqb negb];
      symmetry.
    + apply Z.div_unique with (r := Z.rem a b); lia.
    + apply Z.div_unique with (r := Z.rem a b + b); lia.
    + apply Z.div_unique with (r := Z.rem a b + b); lia.
    + apply Z.div_unique with (r := Z.rem a b); lia.
Qed.

Lemma quot_abs_le (a b : Z) : Z.abs (Z.quot a b) <= Z.abs a.
Proof.
  destruct (Z.eq_dec b 0) as [->|Hb].
  - destruct a; cbn; lia.
  - rewrite <- Z.quot_abs by exact Hb.
    rewrite Z.quot_div_nonneg by lia.
    apply Z.div_le_upper_bound; nia.
Qed.

Lemma float_sub_self (a : Z) : Float.sub a a = 0.
Proof. unfold Float.sub. rewrite Z.sub_diag. reflexivity. Qed.

(** Floor division of two doubles that are integer multiples of a power
    of two, the first below 2^52 units of it: every step is exact and the
    result is the floor of the quotient. *)
Lemma float_floor_div_exact (A B j : Z) :
  0 <= j -> Z.abs A < 2 ^ 52 -> B <> 0 ->
  Py.float_floor_div (A * 2 ^ j) (B * 2 ^ j) = Ok (A / B * Float.one).
Proof.
  intros Hj HA HB. unfold Py.float_floor_div.
  assert (0 < 2 ^ j) as Hg by (apply pow2_pos; exact Hj).
  set (g := 2 ^ j) in *.
  replace (B * g =? 0) with false by (symmetry; apply Z.eqb_neq; nia).
  unfold Float.fmod. rewrite Z.mul_rem_distr_r by lia.
  set (rest := Z.rem A B). set (Q0 := Z.quot A B).
  pose proof (Z.quot_rem' A B) as E. fold rest Q0 in E.
  pose proof (quot_abs_le A B) as HQ. fold Q0 in HQ.
  assert (Z.abs (B * Q0) <= Z.abs A) as HBQ.
  { destruct (Z.le_gt_cases 0 A).
    - pose proof (Z.mul_quot_le A B ltac:(lia) HB) as Hq. fold Q0 in Hq. lia.
    - pose proof (Z.mul_quot_ge A B ltac:(lia) HB) as Hq. fold Q0 in Hq. lia. }
  assert (Float.sub (A * g) (rest * g) = B * Q0 * g) as ->.
  { unfold Float.sub.
    replace (A * g - rest * g) with (B * Q0 * 2 ^ j * 1) by (subst g; rewrite E at 1; ring).
    apply round_exact; lia. }
  assert (Float.div (B * Q0 * g) (B * g) = Q0 * Float.one) as ->.
  { unfold Float.div. rewrite one_pow.
    replace (Z.sgn (B * g) * (B * Q0 * g) * 2 ^ 1074)
      with (Q0 * 2 ^ 1074 * Z.abs (B * g)).
    - apply round_exact; lia.
    - rewrite Z.abs_mul, (Z.abs_eq g), Z.sgn_mul, (Z.sgn_pos g) by lia.
      rewrite <- (Z.sgn_abs B). ring. }
  replace (rest * g =? 0) with (rest =? 0)
    by (destruct (Z.eqb_spec rest 0), (Z.eqb_spec (rest * g) 0); nia).
  replace (B * g <? 0) with (B <? 0)
    by (destruct (Z.ltb_spec B 0), (Z.ltb_spec (B * g) 0); nia).
  replace (rest * g <? 0) with (rest <? 0)
    by (destruct (Z.ltb_spec rest 0), (Z.ltb_spec (rest * g) 0); nia).
  rewrite (floor_of_quot A B HB). fold rest Q0.
  assert (Float.sub (Q0 * Float.one) Float.one = (Q0 - 1) * Float.one) as Hsub.
  { unfold Float.sub. rewrite one_pow.
    replace (Q0 * 2 ^ 1074 - 2 ^ 1074) with ((Q0 - 1) * 2 ^ 1074 * 1) by ring.
    apply round_exact; lia. }
  set (cond := negb (rest =? 0) && negb (Bool.eqb (B <? 0) (rest <? 0))).
  assert (forall q, (if negb (q * Float.one =? 0)
                     then if Float.half <?
                             Float.sub (q * Float.one) (Float.floor (q * Float.one))
                          then Ok (Float.add (Float.floor (q * Float.one)) Float.one)
                          else Ok (Float.floor (q * Float.one))
                     else Ok 0) = Ok (q * Float.one)) as Hsnap.
  { intros q. unfold Float.floor. rewrite Z.div_mul by (rewrite one_pow; lia).
    rewrite float_sub_self.
    destruct (Z.eqb_spec (q * Float.one) 0) as [->|_]; reflexivity. }
  destruct cond; [rewrite Hsub|]; apply Hsnap.
Qed.

Lemma float_of_int_exact (n : Z) :
  Z.abs n < 2 ^ 53 -> Py.float_of_int n = Ok (n * Float.one).
Proof.
  intros Hn. unfold Py.float_of_int. rewrite of_Z_exact by exact Hn.
  replace (Float.huge <=? Z.abs (n * Float.one)) with false; [reflexivity|].
  symmetry. apply Z.leb_gt. rewrite Z.abs_mul, one_pow.
  rewrite (Z.abs_eq (2 ^ 1074)) by (apply Z.lt_le_incl, pow2_pos; lia).
  change Float.huge with (2 ^ 1024 * 2 ^ 1074).
  apply Z.mul_lt_mono_pos_r; [apply pow2_pos; lia|].
  apply (Z.lt_trans _ (2 ^ 53)); [exact Hn|].
  apply Z.pow_lt_mono_r; lia.
Qed.

(** [int(w * 0.8)] for an integer of magnitude below 2^50: four fifths of
    it, towards zero. *)
Lemma int_mul_0_8 (w : Z) :
  Z.abs w < 2 ^ 50 ->
  exists x,
    Py.int_mul_float w Float.c0_8 = Ok x /\ Py.int x = Z.quot (4 * w) 5.
Proof.
  intros Hw. unfold Py.int_mul_float.
  rewrite float_of_int_exact
    by (apply (Z.lt_trans _ (2 ^ 50)); [exact Hw|apply Z.pow_lt_mono_r; lia]).
  cbn [bind]. eexists. split; [reflexivity|]. unfold Py.int.
  destruct (Z.le_gt_cases 0 w) as [Hpos|Hneg].
  - rewrite trunc_mul_0_8 by lia. rewrite Z.quot_div_nonneg by lia.
    reflexivity.
  - replace w with (- (- w)) by lia. set (v := - w).
    assert (0 <= v < 2 ^ 50) as Hv by lia.
    unfold Float.mul, Float.trunc.
    replace (- v * Float.one * Float.c0_8) with (- (v * Float.one * Float.c0_8))
      by ring.
    rewrite round_opp, Z.quot_opp_l by (rewrite one_pow; lia).
    replace (4 * - v) with (- (4 * v)) by ring.
    rewrite Z.quot_opp_l by lia. f_equal.
    rewrite (Z.quot_div_nonneg (4 * v) 5) by lia. exact (trunc_mul_0_8 v Hv).
Qed.

(** [fs // 1.5] for an integer of magnitude below 2^50. *)
Lemma int_floordiv_1_5 (fs : Z) :
  Z.abs fs < 2 ^ 50 ->
  Py.int_floordiv_float fs Float.one_and_half = Ok (2 * fs / 3 * Float.one).
Proof.
  intros Hfs. unfold Py.int_floordiv_float.
  rewrite float_of_int_exact
    by (apply (Z.lt_trans _ (2 ^ 50)); [exact Hfs|apply Z.pow_lt_mono_r; lia]).
  cbn [bind]. rewrite one_pow at 1. unfold Float.one_and_half.
  replace (fs * 2 ^ 1074) with (2 * fs * 2 ^ 1073)
    by (change (2 ^ 1074) with (2 * 2 ^ 1073); ring).
  apply float_floor_div_exact; [lia| |lia].
  change (2 ^ 52) with (4 * 2 ^ 50). lia.
Qed.

(** [tw // d] for an integer of magnitude below 2^50 and a float holding
    an integer. *)
Lemma int_floordiv_integral (tw D : Z) :
  Z.abs tw < 2 ^ 50 ->
  Py.int_floordiv_float tw (D * Float.one) =
  if D =? 0 then Raise ZeroDivisionError else Ok (tw / D * Float.one).
Proof.
  intros Htw. unfold Py.int_floordiv_float.
  rewrite float_of_int_exact
    by (apply (Z.lt_trans _ (2 ^ 50)); [exact Htw|apply Z.pow_lt_mono_r; lia]).
  cbn [bind]. destruct (Z.eqb_spec D 0) as [->|HD]; [reflexivity|].
  rewrite one_pow at 1 2. apply float_floor_div_exact; [lia| |exact HD].
  change (2 ^ 52) with (4 * 2 ^ 50). lia.
Qed.

Lemma quot_4_5_bound (w : Z) :
  Z.abs w < 2 ^ 50 -> Z.abs (Z.quot (4 * w) 5) < 2 ^ 50.
Proof.
  intros Hw. rewrite <- Z.quot_abs by lia.
  rewrite Z.quot_div_nonneg by lia.
  apply (Z.le_lt_trans _ (Z.abs w)); [|exact Hw].
  apply Z.div_le_upper_bound; lia.
Qed.

Lemma to_Q_integral (q : Z) : Float.to_Q (q * Float.one) == inject_Z q.
Proof.
  unfold Float.to_Q. rewrite Qred_correct. unfold Qeq. cbn [Qnum Qden inject_Z].
  rewrite Z2Pos.id by (rewrite one_pow; apply pow2_pos; lia). ring.
Qed.

Lemma max_1_float_Z (q : Z) :
  Py.max_1_float (q * Float.one) == inject_Z (Z.max 1 q).
Proof.
  unfold Py.max_1_float.
  assert (0 < Float.one) as H1 by (rewrite one_pow; apply pow2_pos; lia).
  destruct (Z.ltb_spec Float.one (q * Float.one)) as [H|H].
  - rewrite to_Q_integral, Z.max_r by nia. reflexivity.
  - rewrite Z.max_l by nia. reflexivity.
Qed.

Lemma max_1_float_ge_1 (q : Z) : (1 <= Py.max_1_float (q * Float.one))%Q.
Proof.
  rewrite max_1_float_Z. change 1%Q with (inject_Z 1).
  rewrite <- Zle_Qle. lia.
Qed.

Lemma spec_lines_per_frame_Z (h fs : Z) :
  0 < fs + 10 ->
  Spec.lines_per_frame h fs = Z.max 1 (4 * h / 5 / (fs + 10)).
Proof.
  intros Hk. unfold Spec.lines_per_frame. f_equal.
  rewrite (Qfloor_comp _ (inject_Z (8 * h) / inject_Z (10 * (fs + 10)))).
  - rewrite <- Zdiv_Qdiv. rewrite Z.div_div by lia.
    replace (8 * h) with (2 * (4 * h)) by lia.
    replace (10 * (fs + 10)) with (2 * (5 * (fs + 10))) by lia.
    apply Z.div_mul_cancel_l; lia.
  - rewrite !inject_Z_mult. field.
    change 0%Q with (inject_Z 0). rewrite inject_Z_injective. lia.
Qed.

(** [__init__] on a geometry of magnitudes below 2^50: no conversion
    overflows, every float operation is exact but the products with 0.8,
    whose integer parts are the exact ones, and it raises exactly when one
    of the two divisors is zero. *)
Lemma init_outcome_bounded (fs w h : Z) (b : bool) :
  Z.abs w < 2 ^ 50 -> Z.abs h < 2 ^ 50 -> Z.abs fs < 2 ^ 50 ->
  init_outcome fs w h b =
  if (2 * fs / 3 =? 0) || (fs + 10 =? 0) then Raise ZeroDivisionError
  else
    let tw := Z.quot (4 * w) 5 in
    let th := Z.quot (4 * h) 5 in
    Ok {| font_size := fs; width := w; height := h;
          convert_emojis := b; text_width := tw; text_height := th;
          chars_per_line := Py.max_1_float (tw / (2 * fs / 3) * Float.one);
          lines_per_frame := Z.max 1 (th / (fs + 10)) |}.
Proof.
  intros Hw Hh Hfs. unfold init_outcome.
  destruct (int_mul_0_8 w Hw) as [x [Ex Etw]].
  destruct (int_mul_0_8 h Hh) as [y [Ey Eth]].
  rewrite Ex. cbn [bind]. rewrite Etw, Ey. cbn [bind]. rewrite Eth.
  rewrite int_floordiv_1_5 by exact Hfs. cbn [bind].
  rewrite int_floordiv_integral by (apply quot_4_5_bound; exact Hw).
  unfold Py.floordiv_int.
  destruct (2 * fs / 3 =? 0); cbn [bind orb]; [reflexivity|].
  destruct (fs + 10 =? 0); reflexivity.
Qed.

Lemma init_eq (fs w h : Z) (b : bool) :
  Z.abs w < 2 ^ 50 -> Z.abs h < 2 ^ 50 -> Z.abs fs < 2 ^ 50 ->
  init fs w h b =
  if (2 * fs / 3 =? 0) || (fs + 10 =? 0) then None
  else
    let tw := Z.quot (4 * w) 5 in
    let th := Z.quot (4 * h) 5 in
    Some {| font_size := fs; width := w; height := h;
            convert_emojis := b; text_width := tw; text_height := th;
            chars_per_line := Py.max_1_float (tw / (2 * fs / 3) * Float.one);
            lines_per_frame := Z.max 1 (th / (fs + 10)) |}.
Proof.
  intros Hw Hh Hfs. unfold init.
  rewrite init_outcome_bounded by assumption.
  destruct (_ || _); reflexivity.
Qed.

Lemma divisor_nonzero (fs : Z) :
  fs <> 0 -> fs <> 1 -> (2 * fs / 3 =? 0) = false.
Proof.
  intros H0 H1. apply Z.eqb_neq. intros E.
  assert (0 <= 2 * fs < 3) as Hr.
  { destruct (Z.div_small_iff (2 * fs) 3 ltac:(lia)) as [Hs _].
    destruct (Hs E) as [?|?]; lia. }
  lia.
Qed.

(** A width too large for a double: the first statement of [__init__]
    raises. *)
Lemma float_of_int_overflow (n : Z) :
  2 ^ 1024 <= Z.abs n -> Py.float_of_int n = Raise OverflowError.
Proof.
  intros Hn. unfold Py.float_of_int.
  replace (Float.huge <=? Z.abs (Float.of_Z n)) with true; [reflexivity|].
  symmetry. apply Z.leb_le. unfold Float.of_Z, Float.round.
  assert (0 < Float.one) as H1 by (rewrite one_pow; apply pow2_pos; lia).
  assert (0 < Z.abs n) as Hpos.
  { apply (Z.lt_le_trans _ (2 ^ 1024)); [apply pow2_pos; lia|exact Hn]. }
  set (p := Z.abs (n * Float.one)).
  assert (Float.huge <= p) as Hp.
  { subst p. rewrite Z.abs_mul, (Z.abs_eq Float.one) by lia.
    change Float.huge with (2 ^ 1024 * Float.one).
    apply Z.mul_le_mono_nonneg_r; lia. }
  assert (0 < p) as Hp0.
  { apply (Z.lt_le_trans _ Float.huge); [apply pow2_pos; lia|exact Hp]. }
  rewrite Z.abs_mul. replace (Z.abs (Z.sgn (n * Float.one))) with 1.
  2:{ destruct (Z.sgn_spec (n * Float.one)) as [[_ ->]|[[H _]|[_ ->]]];
        [reflexivity| |reflexivity].
      subst p. rewrite <- H in Hp0. discriminate Hp0. }
  rewrite Z.mul_1_l. unfold Float.round_pos. rewrite Z.div_1_r, Z.mul_1_l.
  assert (2098 <= Z.log2 p) as HL.
  { apply Z.log2_le_pow2; [exact Hp0|exact Hp]. }
  set (k := Z.max 0 (Z.log2 p - 52)).
  assert (k = Z.log2 p - 52) as Ek by lia.
  assert (0 < 2 ^ k) as HG by (apply pow2_pos; lia).
  pose proof (rne_ge p (2 ^ k) HG) as Hge.
  destruct (Z.log2_spec p Hp0) as [Hlow _].
  assert (2 ^ Z.log2 p = 2 ^ 52 * 2 ^ k) as Esplit.
  { rewrite <- Z.pow_add_r by lia. f_equal. lia. }
  assert (2 ^ 52 <= p / 2 ^ k) as Hq.
  { apply Z.div_le_lower_bound; [exact HG|]. rewrite Z.mul_comm, <- Esplit.
    exact Hlow. }
  assert (0 <= Float.rne p (2 ^ k)) as Hr by lia.
  rewrite Z.abs_eq by nia.
  apply (Z.le_trans _ (2 ^ Z.log2 p)).
  - apply Z.pow_le_mono_r; lia.
  - rewrite Esplit. apply Z.mul_le_mono_nonneg_r; lia.
Qed.

End Geometry.

(** C3, as the code has it: for every positive width and height and every
    font size of at least 2, all below 2^50, [__init__] succeeds,
    [chars_per_line] is max(1, floor(floor(0.8·width) / floor(font_size/1.5)))
    (both inner quotients are floored before the outer one),
    [lines_per_frame] is max(1, floor(0.8·height / (font_size+10))), and
    both are at least 1. *)
Theorem init_derives_floored_fields (fs w h : Z) (b : bool) :
  0 < w < 2 ^ 50 -> 0 < h < 2 ^ 50 -> 2 <= fs < 2 ^ 50 ->
  exists g,
    init fs w h b = Some g
    /\ chars_per_line g == inject_Z (derived_chars_per_line w fs)
    /\ lines_per_frame g = Spec.lines_per_frame h fs
    /\ (1 <= chars_per_line g)%Q
    /\ 1 <= lines_per_frame g.
Proof.
  intros Hw Hh Hfs. rewrite init_eq by lia.
  rewrite divisor_nonzero by lia.
  replace (fs + 10 =? 0) with false by (symmetry; apply Z.eqb_neq; lia).
  cbn [orb]. eexists. split; [reflexivity|].
  cbn [chars_per_line lines_per_frame].
  rewrite !Z.quot_div_nonneg by lia. repeat split.
  - apply max_1_float_Z.
  - symmetry. apply spec_lines_per_frame_Z. lia.
  - apply max_1_float_ge_1.
  - lia.
Qed.

Lemma init_derives_floored_fields_witness :
  (0 < 1920 < 2 ^ 50 /\ 0 < 1080 < 2 ^ 50 /\ 2 <= 32 < 2 ^ 50)
  /\ exists g,
       init 32 1920 1080 true = Some g
       /\ chars_per_line g == inject_Z (derived_chars_per_line 1920 32)
       /\ lines_per_frame g = Spec.lines_per_frame 1080 32
       /\ (1 <= chars_per_line g)%Q
       /\ 1 <= lines_per_frame g.
Proof.
  assert (0 < 1920 < 2 ^ 50) as Hw by (split; reflexivity).
  assert (0 < 1080 < 2 ^ 50) as Hh by (split; reflexivity).
  assert (2 <= 32 < 2 ^ 50) as Hfs by (split; [discriminate|reflexivity]).
  split; [exact (conj Hw (conj Hh Hfs))|].
  exact (init_derives_floored_fields 32 1920 1080 true Hw Hh Hfs).
Defined.

(** C3 as stated fails: at the default geometry (1920 x 1080, font size 32)
    the code leaves 73 in [chars_per_line] where the stated formula gives
    72, and at font size 1 the derivation raises. *)
Lemma init_chars_per_line_not_spec :
  (exists g,
     init 32 1920 1080 true = Some g
     /\ chars_per_line g == 73
     /\ ~ chars_per_line g == inject_Z (Spec.chars_per_line 1920 32))
  /\ init 1 1920 1080 true = None.
Proof.
  split; [|vm_compute; reflexivity].
  exists default_generator. split; [vm_compute; reflexivity|].
  split; [reflexivity|].
  intros E. vm_compute in E. discriminate E.
Qed.

(** C4, as the code has it: [__init__] does not validate its arguments.
    With a non-positive width, height or font size, all of magnitude below
    2^50, it still succeeds and derives both fields (each at least 1)
    whenever the font size is none of 0, 1 and -10. *)
Theorem init_accepts_non_positive (fs w h : Z) (b : bool) :
  w <= 0 \/ h <= 0 \/ fs <= 0 ->
  Z.abs w < 2 ^ 50 -> Z.abs h < 2 ^ 50 -> Z.abs fs < 2 ^ 50 ->
  fs <> 0 -> fs <> 1 -> fs <> -10 ->
  exists g,
    init fs w h b = Some g
    /\ (1 <= chars_per_line g)%Q
    /\ 1 <= lines_per_frame g.
Proof.
  intros _ Hw Hh Hfs H0 H1 H10. rewrite init_eq by assumption.
  rewrite divisor_nonzero by assumption.
  replace (fs + 10 =? 0) with false by (symmetry; apply Z.eqb_neq; lia).
  cbn [orb]. eexists. split; [reflexivity|].
  cbn [chars_per_line lines_per_frame]. split.
  - apply max_1_float_ge_1.
  - lia.
Qed.

Lemma init_accepts_non_positive_witness :
  ((-100 <= 0 \/ 0 <= 0 \/ -5 <= 0)
   /\ Z.abs (-100) < 2 ^ 50 /\ Z.abs 0 < 2 ^ 50 /\ Z.abs (-5) < 2 ^ 50
   /\ -5 <> 0 /\ -5 <> 1 /\ -5 <> -10)
  /\ exists g,
       init (-5) (-100) 0 true = Some g
       /\ (1 <= chars_per_line g)%Q
       /\ 1 <= lines_per_frame g.
Proof.
  assert (-100 <= 0 \/ 0 <= 0 \/ -5 <= 0) as Hneg by (left; discriminate).
  assert (Z.abs (-100) < 2 ^ 50) as Hw by reflexivity.
  assert (Z.abs 0 < 2 ^ 50) as Hh by reflexivity.
  assert (Z.abs (-5) < 2 ^ 50) as Hfs by reflexivity.
  assert (-5 <> 0) as H0 by discriminate.
  assert (-5 <> 1) as H1 by discriminate.
  assert (-5 <> -10) as H10 by discriminate.
  split;
    [exact (conj Hneg (conj Hw (conj Hh (conj Hfs (conj H0 (conj H1 H10))))))|].
  exact (init_accepts_non_positive (-5) (-100) 0 true Hneg Hw Hh Hfs H0 H1 H10).
Defined.

(** C4 as stated fails: a zero width and height are accepted, and both
    fields are derived as 1. *)
Lemma init_zero_size_accepted :
  exists g,
    init 32 0 0 true = Some g
    /\ chars_per_line g == 1
    /\ lines_per_frame g = 1.
Proof.
  eexists. split; [vm_compute; reflexivity|]. split; reflexivity.
Qed.

(** ** Python strings *)

Section Strings.

Lemma lstrip_head (t : str) (c : char) (r : str) :
  Py.lstrip t = c :: r -> Py.isspace c = false.
Proof.
  induction t as [|a t IH]; cbn; [discriminate|].
  destruct (Py.isspace a) eqn:E; [exact IH|].
  intros H. injection H as -> _. exact E.
Qed.

Lemma strip_nonempty_char (t : str) :
  Py.strip t <> [] -> exists c, In c (Py.strip t) /\ Py.isspace c = false.
Proof.
  unfold Py.strip, Py.rstrip.
  destruct (Py.lstrip (rev (Py.lstrip t))) as [|c r] eqn:E.
  - intros H. exfalso. apply H. reflexivity.
  - intros _. exists c. split.
    + apply in_rev. rewrite rev_involutive. left. reflexivity.
    + exact (lstrip_head _ _ _ E).
Qed.

Lemma lstrip_all_space (t : str) :
  Forall (fun c => Py.isspace c = true) t -> Py.lstrip t = [].
Proof.
  induction 1 as [|c t Hc _ IH]; cbn; [reflexivity|].
  rewrite Hc. exact IH.
Qed.

Lemma strip_all_space (t : str) :
  Forall (fun c => Py.isspace c = true) t -> Py.strip t = [].
Proof.
  intros H. unfold Py.strip. rewrite (lstrip_all_space t H). reflexivity.
Qed.

Lemma cons_word_ok (w : str) (ws : list str) :
  Forall not_space w -> Forall is_word ws -> Forall is_word (Py.cons_word w ws).
Proof.
  intros Hw Hws. unfold Py.cons_word. destruct w as [|c w]; cbn; [exact Hws|].
  constructor; [|exact Hws]. split; [discriminate|exact Hw].
Qed.

Lemma split_go_ok (t : str) :
  Forall not_space (fst (Py.split_go t))
  /\ Forall is_word (snd (Py.split_go t)).
Proof.
  induction t as [|c t [IHw IHws]]; cbn.
  - split; constructor.
  - destruct (Py.split_go t) as [w ws]. cbn in IHw, IHws.
    destruct (Py.isspace c) eqn:E; cbn.
    + split; [constructor|]. apply cons_word_ok; assumption.
    + split; [|exact IHws]. constructor; [exact E|exact IHw].
Qed.

Lemma split_ok (t : str) : Forall is_word (Py.split t).
Proof.
  unfold Py.split. destruct (split_go_ok t) as [Hw Hws].
  destruct (Py.split_go t) as [w ws]. apply cons_word_ok; assumption.
Qed.

Lemma split_cons (c : char) (t : str) :
  Py.split (c :: t) =
  if Py.isspace c then Py.split t
  else (c :: fst (Py.split_go t)) :: snd (Py.split_go t).
Proof.
  unfold Py.split. cbn. destruct (Py.split_go t) as [w ws].
  destruct (Py.isspace c); reflexivity.
Qed.

Lemma split_nonempty (t : str) :
  (exists c, In c t /\ Py.isspace c = false) -> Py.split t <> [].
Proof.
  induction t as [|a t IH]; intros [c [Hin Hc]]; [destruct Hin|].
  rewrite split_cons. destruct (Py.isspace a) eqn:E; [|discriminate].
  apply IH. destruct Hin as [->|Hin]; [congruence|].
  exists c. split; assumption.
Qed.

Lemma join_snoc (sep : str) (ps : list str) (p : str) :
  Py.join sep (ps ++ [p]) =
  match ps with [] => p | _ :: _ => Py.join sep ps ++ sep ++ p end.
Proof.
  induction ps as [|a ps IH]; [reflexivity|].
  destruct ps as [|b ps]; [reflexivity|].
  change (Py.join sep ((a :: b :: ps) ++ [p]))
    with (a ++ sep ++ Py.join sep ((b :: ps) ++ [p])).
  rewrite IH. change (Py.join sep (a :: b :: ps))
    with (a ++ sep ++ Py.join sep (b :: ps)).
  rewrite <- !app_assoc. reflexivity.
Qed.

Lemma join_cons2 (sep : str) (a b : str) (ps : list str) :
  Py.join sep (a :: b :: ps) = a ++ sep ++ Py.join sep (b :: ps).
Proof. reflexivity. Qed.

(** The characters of a joined string come from the parts or from the
    separator. *)
Lemma in_join (sep : str) (ps : list str) (c : char) :
  In c (Py.join sep ps) -> In c sep \/ exists p, In p ps /\ In c p.
Proof.
  induction ps as [|a ps IH]; [intros []|].
  destruct ps as [|b ps].
  - cbn. intros H. right. exists a. split; [left; reflexivity|exact H].
  - rewrite join_cons2. intros H.
    apply in_app_or in H. destruct H as [H|H].
    + right. exists a. split; [left; reflexivity|exact H].
    + apply in_app_or in H. destruct H as [H|H]; [left; exact H|].
      destruct (IH H) as [?|[p [Hp Hc]]]; [left; assumption|].
      right. exists p. split; [right; exact Hp|exact Hc].
Qed.

Lemma join_nonempty (sep : str) (ps : list str) :
  (exists p r, ps = p :: r /\ p <> []) -> Py.join sep ps <> [].
Proof.
  intros [p [r [-> Hp]]]. destruct r as [|b r]; [exact Hp|].
  rewrite join_cons2. destruct p; [congruence|discriminate].
Qed.

Lemma split_lines_line (l : str) (cur rest : str) :
  ~ In 10%N l ->
  split_lines cur (l ++ rest) = split_lines (rev l ++ cur) rest.
Proof.
  revert cur. induction l as [|c l IH]; intros cur Hl; [reflexivity|].
  cbn. destruct (N.eqb_spec c 10) as [->|Hc].
  - exfalso. apply Hl. left. reflexivity.
  - rewrite IH by (intros H; apply Hl; right; exact H).
    rewrite <- app_assoc. reflexivity.
Qed.

Lemma split_lines_join (buf : list str) :
  buf <> [] -> Forall (fun l => ~ In 10%N l) buf ->
  split_lines [] (Py.join NEWLINE buf) = buf.
Proof.
  induction buf as [|p buf IH]; [congruence|]. intros _ H.
  inversion H as [|? ? Hp Hbuf]; subst.
  destruct buf as [|q buf].
  - cbn [Py.join]. rewrite <- (app_nil_r p) at 1.
    rewrite split_lines_line by exact Hp. cbn.
    rewrite app_nil_r, rev_involutive. reflexivity.
  - rewrite join_cons2. rewrite split_lines_line by exact Hp.
    cbn. rewrite app_nil_r, rev_involutive. f_equal.
    apply IH; [discriminate|exact Hbuf].
Qed.

End Strings.

(** ** The line wrapper *)

Section Wrapping.

Variable U : UnicodeData.
Variable budget : Q.

Lemma add_char_width_units (acc : Z) (c : char) :
  add_char_width U acc c = acc + Spec.char_units U c.
Proof.
  unfold add_char_width, Spec.char_units.
  destruct (category_So U c), (east_asian_FW U c); reflexivity.
Qed.

Lemma word_width_acc (w : str) (acc : Z) :
  fold_left (add_char_width U) w acc = acc + Spec.visual_width U w.
Proof.
  revert acc. induction w as [|c w IH]; intros acc; cbn.
  - lia.
  - rewrite IH, add_char_width_units. lia.
Qed.

(** The character loop of the code computes the Width Estimator. *)
Lemma word_width_visual (w : str) : word_width U w = Spec.visual_width U w.
Proof. unfold word_width. rewrite word_width_acc. lia. Qed.

Lemma char_units_pos (c : char) : 1 <= Spec.char_units U c.
Proof.
  unfold Spec.char_units.
  destruct (category_So U c || east_asian_FW U c); lia.
Qed.

Lemma visual_width_nonneg (t : str) : 0 <= Spec.visual_width U t.
Proof.
  induction t as [|c t IH]; cbn; [lia|].
  pose proof (char_units_pos c). lia.
Qed.

Lemma visual_width_app (a b : str) :
  Spec.visual_width U (a ++ b) =
  Spec.visual_width U a + Spec.visual_width U b.
Proof. induction a as [|c a IH]; cbn; [reflexivity|]. rewrite IH. lia. Qed.

Lemma gt_int_float_dec (a : Z) :
  Py.gt_int_float a budget =
  if Qlt_le_dec budget (inject_Z a) then true else false.
Proof.
  unfold Py.gt_int_float.
  destruct (Qlt_le_dec budget (inject_Z a)) as [Hlt|Hle].
  - destruct (Qle_bool (inject_Z a) budget) eqn:E; [|reflexivity].
    apply Qle_bool_iff in E. exfalso. exact (Qlt_not_le _ _ Hlt E).
  - apply Qle_bool_iff in Hle. rewrite Hle. reflexivity.
Qed.

(** The loop of the code, from any state, appends to its lines what the
    greedy packing yields from the current line. *)
Lemma wrap_loop_greedy (words : list str) (st : WrapState) :
  finish (fold_left (wrap_step U budget) words st) =
  lines st ++
  Spec.greedy U budget (current_line st) (current_width st) words.
Proof.
  revert st. induction words as [|w words IH]; intros st.
  - cbn. unfold finish. destruct (current_line st); cbn.
    + rewrite app_nil_r. reflexivity.
    + reflexivity.
  - cbn [fold_left]. rewrite IH. unfold wrap_step.
    rewrite word_width_visual, gt_int_float_dec.
    destruct (current_line st) as [|p ps] eqn:E; cbn [nonempty andb].
    + rewrite andb_false_r. cbn [lines current_line current_width Spec.greedy].
      reflexivity.
    + cbn [Spec.greedy].
      destruct (Qlt_le_dec budget
                  (inject_Z (current_width st + Spec.visual_width U w + 1)));
        cbn [andb lines current_line current_width].
      * rewrite <- app_assoc. reflexivity.
      * reflexivity.
Qed.

Lemma wrap_words_greedy (words : list str) :
  wrap_words U words budget = Spec.greedy U budget [] 0 words.
Proof.
  exact (wrap_loop_greedy words
           {| lines := []; current_line := []; current_width := 0 |}).
Qed.

Local Abbreviation vw := (Spec.visual_width U).
Local Abbreviation fits := (fun l : str => (inject_Z (vw l) <= budget)%Q).

Lemma visual_width_join_snoc (cur : list str) (w : str) :
  narrow_space U ->
  vw (Py.join SPACE (cur ++ [w])) =
  vw (Py.join SPACE cur) + vw w + (if nonempty cur then 1 else 0).
Proof.
  intros [Hso Hfw]. rewrite join_snoc. destruct cur as [|p ps]; cbn [nonempty].
  - cbn. lia.
  - rewrite !visual_width_app.
    assert (vw SPACE = 1) as ->.
    { cbn. unfold Spec.char_units. rewrite Hso, Hfw. reflexivity. }
    lia.
Qed.

Lemma greedy_fits (words cur : list str) (cw : Z) :
  narrow_space U ->
  Forall fits words ->
  cw = vw (Py.join SPACE cur) ->
  (cur <> [] -> (inject_Z cw <= budget)%Q) ->
  Forall fits (Spec.greedy U budget cur cw words).
Proof.
  intros Hsp. revert cur cw.
  induction words as [|w words IH]; intros cur cw Hws Hcw Hfit.
  - cbn. destruct cur as [|p ps]; constructor; [|constructor].
    rewrite <- Hcw. apply Hfit. discriminate.
  - inversion Hws as [|? ? Hw Hrest]; subst. cbn [Spec.greedy].
    destruct cur as [|p ps].
    + apply IH; [exact Hrest| |].
      * cbn. lia.
      * intros _. cbn [Py.join] in *.
        replace (vw [] + vw w + 0) with (vw w) by (cbn; lia). exact Hw.
    + destruct (Qlt_le_dec budget
                  (inject_Z (vw (Py.join SPACE (p :: ps)) + vw w + 1)))
        as [Hlt|Hle].
      * constructor; [apply Hfit; discriminate|].
        apply IH; [exact Hrest|reflexivity|intros _; exact Hw].
      * apply IH; [exact Hrest| |intros _; exact Hle].
        rewrite visual_width_join_snoc by exact Hsp. reflexivity.
Qed.

Lemma inject_Z_lt_mono (a b : Z) (q : Q) :
  (q < inject_Z a)%Q -> a <= b -> (q < inject_Z b)%Q.
Proof.
  intros Hq Hab. apply (Qlt_le_trans _ (inject_Z a)); [exact Hq|].
  rewrite <- Zle_Qle. exact Hab.
Qed.

(** After a word wider than the budget the packing starts afresh. *)
Lemma greedy_after_wide (w : str) (words : list str) :
  (budget < inject_Z (vw w))%Q ->
  Spec.greedy U budget [w] (vw w) words =
  w :: Spec.greedy U budget [] 0 words.
Proof.
  intros Hw. destruct words as [|w2 words]; [reflexivity|].
  cbn [Spec.greedy].
  destruct (Qlt_le_dec budget (inject_Z (vw w + vw w2 + 1))) as [_|Hle].
  - cbn [Py.join]. do 2 f_equal. lia.
  - exfalso. apply (Qlt_not_le _ _ (inject_Z_lt_mono _ (vw w + vw w2 + 1) _ Hw
                                      ltac:(pose proof (visual_width_nonneg w2); lia))).
    exact Hle.
Qed.

Lemma greedy_wide_word (ws1 : list str) (w : str) (ws2 cur : list str)
  (cw : Z) :
  (budget < inject_Z (vw w))%Q -> 0 <= cw ->
  Spec.greedy U budget cur cw (ws1 ++ w :: ws2) =
  Spec.greedy U budget cur cw ws1 ++ w :: Spec.greedy U budget [] 0 ws2.
Proof.
  intros Hw. revert cur cw.
  induction ws1 as [|a ws1 IH]; intros cur cw Hcw.
  - cbn [app Spec.greedy]. destruct cur as [|p ps].
    + replace (cw + vw w + 0) with (vw w + cw) by lia.
      destruct ws2 as [|w2 ws2]; [reflexivity|].
      cbn [Spec.greedy app].
      destruct (Qlt_le_dec budget (inject_Z (vw w + cw + vw w2 + 1)))
        as [_|Hle].
      * cbn [Py.join]. do 2 f_equal. lia.
      * exfalso.
        apply (Qlt_not_le _ _
                 (inject_Z_lt_mono _ (vw w + cw + vw w2 + 1) _ Hw
                    ltac:(pose proof (visual_width_nonneg w2); lia))).
        exact Hle.
    + destruct (Qlt_le_dec budget (inject_Z (cw + vw w + 1))) as [_|Hle].
      * cbn [app]. f_equal. apply greedy_after_wide. exact Hw.
      * exfalso.
        apply (Qlt_not_le _ _
                 (inject_Z_lt_mono _ (cw + vw w + 1) _ Hw ltac:(lia))).
        exact Hle.
  - cbn [app Spec.greedy]. pose proof (visual_width_nonneg a) as Ha.
    destruct cur as [|p ps].
    + apply IH. lia.
    + destruct (Qlt_le_dec budget (inject_Z (cw + vw a + 1))).
      * cbn [app]. f_equal. apply IH. exact Ha.
      * apply IH. lia.
Qed.

Lemma joined_words_line (cur : list str) :
  cur <> [] -> Forall is_word cur -> is_line (Py.join SPACE cur).
Proof.
  intros Hne Hws. split.
  - apply join_nonempty. destruct cur as [|p ps]; [congruence|].
    exists p, ps. split; [reflexivity|].
    inversion Hws as [|? ? [Hp _] _]; subst. exact Hp.
  - intros Hin. apply in_join in Hin. destruct Hin as [Hin|[p [Hp Hin]]].
    + cbn in Hin. destruct Hin as [Hin|[]]. discriminate Hin.
    + rewrite Forall_forall in Hws. destruct (Hws p Hp) as [_ Hns].
      rewrite Forall_forall in Hns. specialize (Hns _ Hin).
      unfold not_space in Hns. discriminate Hns.
Qed.

Lemma greedy_lines (words cur : list str) (cw : Z) :
  Forall is_word words -> Forall is_word cur ->
  Forall is_line (Spec.greedy U budget cur cw words).
Proof.
  revert cur cw. induction words as [|w words IH]; intros cur cw Hws Hcur.
  - cbn. destruct cur as [|p ps]; constructor; [|constructor].
    apply joined_words_line; [discriminate|exact Hcur].
  - inversion Hws as [|? ? Hw Hrest]; subst. cbn [Spec.greedy].
    destruct cur as [|p ps].
    + apply IH; [exact Hrest|]. constructor; [exact Hw|constructor].
    + destruct (Qlt_le_dec _ _).
      * constructor; [apply joined_words_line; [discriminate|exact Hcur]|].
        apply IH; [exact Hrest|]. constructor; [exact Hw|constructor].
      * apply IH; [exact Hrest|]. apply Forall_app. split; [exact Hcur|].
        constructor; [exact Hw|constructor].
Qed.

Lemma greedy_nonempty (words cur : list str) (cw : Z) :
  words <> [] \/ cur <> [] -> Spec.greedy U budget cur cw words <> [].
Proof.
  revert cur cw. induction words as [|w words IH]; intros cur cw H.
  - cbn. destruct cur; [|discriminate]. destruct H; congruence.
  - cbn [Spec.greedy]. destruct cur as [|p ps].
    + apply IH. right. discriminate.
    + destruct (Qlt_le_dec _ _); [discriminate|].
      apply IH. right. destruct ps; discriminate.
Qed.

End Wrapping.

(** C5: the wrapper of the code is the greedy packing the specification
    describes, for every text, every budget and every Unicode table, and it
    wraps "hello world" at budget 10 into "hello" and "world". *)
Theorem wrap_is_greedy_packing :
  (forall (U : UnicodeData) (text : str) (budget : Q),
     wrap_text_with_emoji_support U text budget = Spec.wrap U text budget)
  /\ wrap_text_with_emoji_support ucd_basic (lit "hello world") 10
     = [lit "hello"; lit "world"].
Proof.
  split.
  - intros U text budget. apply wrap_words_greedy.
  - reflexivity.
Qed.

(** C6: when the space is narrow in the Unicode table (as it is), for every
    text and positive budget that no word exceeds, every wrapped line has a
    visual width, joining spaces counted, within the budget; and a word
    wider than the budget is a line of its own, whole, between the lines of
    the words before it and of the words after it. *)
Theorem wrap_width_budget (U : UnicodeData) (text : str) (budget : Q) :
  narrow_space U ->
  ((0 < budget)%Q ->
   (forall w, In w (Py.split text) -> (inject_Z (word_width U w) <= budget)%Q) ->
   Forall (fun line => (inject_Z (word_width U line) <= budget)%Q)
     (wrap_text_with_emoji_support U text budget))
  /\ (forall ws1 w ws2,
        Py.split text = ws1 ++ w :: ws2 ->
        (budget < inject_Z (word_width U w))%Q ->
        wrap_text_with_emoji_support U text budget
        = wrap_words U ws1 budget ++ w :: wrap_words U ws2 budget).
Proof.
  intros Hsp. split.
  - intros _ Hws. unfold wrap_text_with_emoji_support.
    rewrite wrap_words_greedy.
    apply (Forall_impl _ (P := fun l => (inject_Z (Spec.visual_width U l) <= budget)%Q)).
    + intros l Hl. rewrite word_width_visual. exact Hl.
    + apply greedy_fits; [exact Hsp| |reflexivity|congruence].
      apply Forall_forall. intros w Hw. rewrite <- word_width_visual.
      apply Hws. exact Hw.
  - intros ws1 w ws2 Hsplit Hw. unfold wrap_text_with_emoji_support.
    rewrite Hsplit, !wrap_words_greedy. rewrite word_width_visual in Hw.
    apply greedy_wide_word; [exact Hw|lia].
Qed.

Lemma wrap_width_budget_witness :
  Forall (fun line => (inject_Z (word_width ucd_basic line) <= 10)%Q)
    (wrap_text_with_emoji_support ucd_basic (lit "hello world") 10)
  /\ wrap_text_with_emoji_support ucd_basic (lit "an unbreakable word") 5
     = wrap_words ucd_basic [lit "an"] 5
       ++ lit "unbreakable" :: wrap_words ucd_basic [lit "word"] 5.
Proof.
  assert (narrow_space ucd_basic) as Hsp by (split; reflexivity).
  split.
  - apply (proj1 (wrap_width_budget ucd_basic (lit "hello world") 10 Hsp)).
    + reflexivity.
    + intros w [<-|[<-|[]]]; discriminate.
  - apply (proj2 (wrap_width_budget ucd_basic (lit "an unbreakable word") 5 Hsp)).
    + reflexivity.
    + reflexivity.
Defined.

(** ** The frame paginator *)

Section Buffers.

Variable P : str -> Prop.
Hypothesis P_line : forall l, P l -> is_line l.

Lemma good_buf_head (buf : list str) :
  good_buf P buf -> forall l r, buf = l :: r -> P l.
Proof.
  induction 1 as [|buf l0 Hbuf IH Hl0|buf l0 Hbuf IH Hl0]; intros l r E.
  - discriminate E.
  - destruct buf as [|a buf]; cbn in E.
    + injection E as <- _. exact Hl0.
    + injection E as -> _. eapply IH. reflexivity.
  - destruct (buf ++ [l0]) as [|a q] eqn:Eq.
    + destruct buf; discriminate Eq.
    + cbn in E. injection E as -> _. eapply IH. reflexivity.
Qed.

Lemma good_buf_no_newline (buf : list str) :
  good_buf P buf -> Forall (fun l => ~ In 10%N l) buf.
Proof.
  induction 1 as [|buf l0 Hbuf IH Hl0|buf l0 Hbuf IH Hl0].
  - constructor.
  - apply Forall_app. split; [exact IH|].
    constructor; [exact (proj2 (P_line _ Hl0))|constructor].
  - apply Forall_app. split; [exact IH|].
    constructor; [intros []|constructor].
Qed.

(** In a buffer every blank line stands right after a line. *)
Lemma good_buf_blank (buf : list str) :
  good_buf P buf ->
  forall pre post, buf = pre ++ [] :: post ->
  exists pre' l, pre = pre' ++ [l] /\ P l.
Proof.
  induction 1 as [|buf l0 Hbuf IH Hl0|buf l0 Hbuf IH Hl0]; intros pre post E.
  - destruct pre; discriminate E.
  - destruct post as [|x post _] using rev_ind.
    + apply app_inj_tail in E. destruct E as [_ ->].
      exfalso. exact (proj1 (P_line _ Hl0) eq_refl).
    + change (pre ++ [] :: post ++ [x]) with (pre ++ ([] :: post) ++ [x]) in E.
      rewrite app_assoc in E. apply app_inj_tail in E. destruct E as [E _].
      exact (IH pre post E).
  - destruct post as [|x post _] using rev_ind.
    + apply app_inj_tail in E. destruct E as [<- _].
      exists buf, l0. split; [reflexivity|exact Hl0].
    + change (pre ++ [] :: post ++ [x]) with (pre ++ ([] :: post) ++ [x]) in E.
      rewrite app_assoc in E. apply app_inj_tail in E. destruct E as [E _].
      exact (IH pre post E).
Qed.

Lemma good_buf_join_nonempty (buf : list str) :
  buf <> [] -> good_buf P buf -> Py.join NEWLINE buf <> [].
Proof.
  intros Hne Hbuf. apply join_nonempty.
  destruct buf as [|l r]; [congruence|]. exists l, r. split; [reflexivity|].
  exact (proj1 (P_line _ (good_buf_head _ Hbuf l r eq_refl))).
Qed.

(** The lines a closed frame shows are the lines of its buffer. *)
Lemma good_frame_lines (cap : Z) (f : str) :
  good_frame P cap f ->
  exists buf,
    frame_lines f = buf /\ buf <> [] /\ good_buf P buf
    /\ Z.of_nat (List.length buf) <= cap.
Proof.
  intros [buf [Hne [Hbuf [Hlen ->]]]]. exists buf.
  split; [|repeat split; assumption].
  unfold frame_lines.
  pose proof (good_buf_join_nonempty buf Hne Hbuf) as Hj.
  destruct (Py.join NEWLINE buf) as [|c t] eqn:E; [congruence|].
  rewrite <- E. apply split_lines_join; [exact Hne|].
  apply good_buf_no_newline. exact Hbuf.
Qed.

Variable self : TextToVideoGenerator.

Local Abbreviation cap := (Z.max 1 (lines_per_frame self)).

Lemma frame_add_line_inv (st : FrameState) (l : str) :
  frame_inv P cap st -> P l ->
  frame_inv P cap (frame_add_line self st l)
  /\ ends_with_line P (frame_add_line self st l).
Proof.
  intros [Hcount [Hbuf [Hlen Hframes]]] Hl. unfold frame_add_line.
  destruct ((current_line_count st + 1 >? lines_per_frame self)
            && nonempty (current_frame_lines st)) eqn:E.
  - apply andb_true_iff in E. destruct E as [_ Hne].
    cbn [frames current_frame_lines current_line_count]. split.
    + repeat split.
      * apply (good_line P [] l); [constructor|exact Hl].
      * cbn. lia.
      * apply Forall_app. split; [exact Hframes|].
        constructor; [|constructor].
        exists (current_frame_lines st). repeat split; try assumption.
        destruct (current_frame_lines st); [discriminate Hne|discriminate].
    + exists [], l. split; [reflexivity|exact Hl].
  - split.
    + repeat split.
      * cbn [current_line_count current_frame_lines].
        rewrite length_app. cbn. lia.
      * apply good_line; assumption.
      * cbn [current_frame_lines]. rewrite length_app. cbn [List.length].
        apply andb_false_iff in E. destruct E as [E|E].
        -- rewrite Z.gtb_ltb in E. apply Z.ltb_ge in E. lia.
        -- destruct (current_frame_lines st); [cbn; lia|discriminate E].
      * exact Hframes.
    + exists (current_frame_lines st), l. split; [reflexivity|exact Hl].
Qed.

Lemma frame_add_lines_inv (ls : list str) (st : FrameState) :
  frame_inv P cap st -> Forall P ls ->
  frame_inv P cap (fold_left (frame_add_line self) ls st)
  /\ (ls <> [] \/ ends_with_line P st ->
      ends_with_line P (fold_left (frame_add_line self) ls st)).
Proof.
  revert st. induction ls as [|l ls IH]; intros st Hinv Hls.
  - cbn. split; [exact Hinv|]. intros [H|H]; [congruence|exact H].
  - inversion Hls as [|? ? Hl Hrest]; subst. cbn [fold_left].
    destruct (frame_add_line_inv st l Hinv Hl) as [Hinv1 Hend1].
    destruct (IH _ Hinv1 Hrest) as [Hinv2 Hend2].
    split; [exact Hinv2|]. intros _. apply Hend2. right. exact Hend1.
Qed.

Variable U : UnicodeData.

Lemma frame_add_paragraph_inv (st : FrameState) (p : str) :
  frame_inv P cap st ->
  wrap_text_with_emoji_support U p (chars_per_line self) <> [] ->
  Forall P (wrap_text_with_emoji_support U p (chars_per_line self)) ->
  frame_inv P cap (frame_add_paragraph U self st p).
Proof.
  intros Hinv Hne Hls. unfold frame_add_paragraph.
  destruct (frame_add_lines_inv _ st Hinv Hls) as [Hinv1 Hend1].
  specialize (Hend1 (or_introl Hne)).
  set (st1 := fold_left (frame_add_line self) _ st) in *.
  destruct (current_line_count st1 <? lines_per_frame self) eqn:E;
    [|exact Hinv1].
  destruct Hinv1 as [Hcount [Hbuf [Hlen Hframes]]].
  destruct Hend1 as [buf [l [Ebuf Hl]]].
  apply Z.ltb_lt in E.
  repeat split; cbn [frames current_frame_lines current_line_count].
  - rewrite length_app. cbn. lia.
  - rewrite Ebuf. apply good_spacer; [rewrite <- Ebuf; exact Hbuf|exact Hl].
  - rewrite length_app. cbn [List.length]. lia.
  - exact Hframes.
Qed.

Lemma frame_add_paragraphs_inv (ps : list str) (st : FrameState) :
  frame_inv P cap st ->
  (forall p, In p ps ->
     wrap_text_with_emoji_support U p (chars_per_line self) <> []
     /\ Forall P (wrap_text_with_emoji_support U p (chars_per_line self))) ->
  frame_inv P cap (fold_left (frame_add_paragraph U self) ps st).
Proof.
  revert st. induction ps as [|p ps IH]; intros st Hinv Hps; [exact Hinv|].
  cbn [fold_left]. apply IH.
  - destruct (Hps p (or_introl eq_refl)) as [Hne Hls].
    apply frame_add_paragraph_inv; assumption.
  - intros q Hq. apply Hps. right. exact Hq.
Qed.

(** Every frame of the two loops is the empty frame or a closed frame. *)
Lemma frames_of_paragraphs_good (ps : list str) (f : str) :
  (forall p, In p ps ->
     wrap_text_with_emoji_support U p (chars_per_line self) <> []
     /\ Forall P (wrap_text_with_emoji_support U p (chars_per_line self))) ->
  In f (frames_of_paragraphs U self ps) ->
  f = [] \/ good_frame P cap f.
Proof.
  intros Hps. unfold frames_of_paragraphs.
  assert (frame_inv P cap
            {| frames := []; current_frame_lines := [];
               current_line_count := 0 |}) as Hinit.
  { repeat split; cbn; try lia; constructor. }
  pose proof (frame_add_paragraphs_inv ps _ Hinit Hps) as Hinv.
  set (st := fold_left (frame_add_paragraph U self) ps _) in *.
  destruct Hinv as [Hcount [Hbuf [Hlen Hframes]]].
  assert (Forall (good_frame P cap)
            (if nonempty (current_frame_lines st)
             then frames st ++ [Py.join NEWLINE (current_frame_lines st)]
             else frames st)) as Hall.
  { destruct (current_frame_lines st) as [|l r] eqn:E; cbn [nonempty];
      [exact Hframes|].
    apply Forall_app. split; [exact Hframes|]. constructor; [|constructor].
    exists (l :: r). repeat split; try assumption. discriminate. }
  destruct (if nonempty (current_frame_lines st)
            then frames st ++ [Py.join NEWLINE (current_frame_lines st)]
            else frames st) as [|f0 fs]; cbn [nonempty].
  - intros [<-|[]]. left. reflexivity.
  - intros Hin. right. rewrite Forall_forall in Hall. apply Hall. exact Hin.
Qed.

End Buffers.

Section Pagination.

Variable U : UnicodeData.
Variable self : TextToVideoGenerator.

Lemma wrap_lines (t : str) (b : Q) :
  Forall is_line (wrap_text_with_emoji_support U t b).
Proof.
  unfold wrap_text_with_emoji_support. rewrite wrap_words_greedy.
  apply greedy_lines; [apply split_ok|constructor].
Qed.

Lemma paragraph_stripped (text p : str) :
  In p (paragraphs_of text) -> exists q, p = Py.strip q /\ Py.strip q <> [].
Proof.
  unfold paragraphs_of. intros H. apply in_map_iff in H.
  destruct H as [q [<- Hq]]. apply filter_In in Hq. destruct Hq as [_ Hq].
  exists q. split; [reflexivity|]. destruct (Py.strip q); discriminate.
Qed.

Lemma paragraph_wrap_nonempty (text p : str) (b : Q) :
  In p (paragraphs_of text) -> wrap_text_with_emoji_support U p b <> [].
Proof.
  intros H. destruct (paragraph_stripped _ _ H) as [q [-> Hq]].
  unfold wrap_text_with_emoji_support. rewrite wrap_words_greedy.
  apply greedy_nonempty. left. apply split_nonempty.
  apply strip_nonempty_char. exact Hq.
Qed.

Local Abbreviation line := (fun l => is_line l /\ wrapped_line U self l).

Lemma split_text_into_frames_good (text f : str) :
  In f (split_text_into_frames U self text) ->
  f = [] \/ good_frame line (Z.max 1 (lines_per_frame self)) f.
Proof.
  unfold split_text_into_frames.
  destruct (negb (nonempty (Py.strip text))).
  - intros [<-|[]]. left. reflexivity.
  - apply frames_of_paragraphs_good. intros p Hp. split.
    + exact (paragraph_wrap_nonempty _ _ _ Hp).
    + apply Forall_forall. intros l Hl. split.
      * pose proof (wrap_lines p (chars_per_line self)) as H.
        rewrite Forall_forall in H. apply H. exact Hl.
      * exists p. exact Hl.
Qed.

Lemma frames_of_paragraphs_nonempty (ps : list str) :
  frames_of_paragraphs U self ps <> [].
Proof.
  unfold frames_of_paragraphs. cbv zeta.
  match goal with
  | |- (if nonempty ?x then _ else _) <> _ => destruct x
  end; cbn; discriminate.
Qed.

Lemma split_text_into_frames_nonempty (text : str) :
  split_text_into_frames U self text <> [].
Proof.
  unfold split_text_into_frames.
  destruct (negb _); [discriminate|apply frames_of_paragraphs_nonempty].
Qed.

Lemma split_text_into_frames_blank (text : str) :
  Py.strip text = [] -> split_text_into_frames U self text = [[]].
Proof. intros H. unfold split_text_into_frames. rewrite H. reflexivity. Qed.

End Pagination.

(** Whatever the geometry, the object [__init__] builds has the flag it
    was given and fields that do not depend on the flag. *)
Lemma init_flag (fs w h : Z) (b b' : bool) (g : TextToVideoGenerator) :
  init fs w h b = Some g ->
  convert_emojis g = b
  /\ exists l, lines_per_frame g = Z.max 1 l
  /\ init fs w h b' =
     Some {| font_size := font_size g; width := width g; height := height g;
             convert_emojis := b'; text_width := text_width g;
             text_height := text_height g;
             chars_per_line := chars_per_line g;
             lines_per_frame := lines_per_frame g |}.
Proof.
  unfold init, init_outcome.
  destruct (Py.int_mul_float w Float.c0_8) as [x|]; cbn [bind];
    [|discriminate].
  destruct (Py.int_mul_float h Float.c0_8) as [y|]; cbn [bind];
    [|discriminate].
  destruct (Py.int_floordiv_float fs Float.one_and_half) as [d|]; cbn [bind];
    [|discriminate].
  destruct (Py.int_floordiv_float (Py.int x) d) as [c|]; cbn [bind];
    [|discriminate].
  destruct (Py.floordiv_int (Py.int y) (fs + 10)) as [l|]; [|discriminate].
  intros H. injection H as <-. split; [reflexivity|].
  exists l. split; reflexivity.
Qed.

Lemma init_lines_per_frame (fs w h : Z) (b : bool) (g : TextToVideoGenerator) :
  init fs w h b = Some g -> 1 <= lines_per_frame g.
Proof.
  intros H. destruct (init_flag fs w h b b g H) as [_ [l [-> _]]]. lia.
Qed.

(** C7: for every text and every configuration (its [lines_per_frame] is
    at least 1, as [__init__] leaves it), every frame the paginator
    produces shows at most [lines_per_frame] lines, spacers included. *)
Theorem frames_within_line_budget (U : UnicodeData)
  (self : TextToVideoGenerator) (text : str) :
  1 <= lines_per_frame self ->
  forall f, In f (split_text_into_frames U self text) ->
    line_count f <= lines_per_frame self.
Proof.
  intros Hlpf f Hf. unfold line_count.
  destruct (split_text_into_frames_good U self text f Hf) as [->|Hgood].
  - cbn. lia.
  - destruct (good_frame_lines _ (fun l H => proj1 H) _ _ Hgood)
      as [buf [-> [_ [_ Hlen]]]].
    lia.
Qed.

(** C8: the paginator returns at least one frame for every text, and
    exactly one empty frame when the text is empty once stripped, as it is
    for the empty string and for whitespace; so do the frames
    [generate_video] renders. *)
Theorem pagination_never_empty (U : UnicodeData)
  (self : TextToVideoGenerator) (text : str) :
  split_text_into_frames U self text <> []
  /\ generate_video_frames U self text <> []
  /\ split_text_into_frames U self [] = [[]]
  /\ (Py.strip text = [] -> split_text_into_frames U self text = [[]])
  /\ (Forall (fun c => Py.isspace c = true) text ->
      split_text_into_frames U self text = [[]])
  /\ (Py.strip (filter_text U text) = [] ->
      generate_video_frames U self text = [[]]).
Proof.
  split; [apply split_text_into_frames_nonempty|].
  split; [apply split_text_into_frames_nonempty|].
  split; [reflexivity|].
  split; [apply split_text_into_frames_blank|].
  split.
  - intros H. apply split_text_into_frames_blank. apply strip_all_space.
    exact H.
  - intros H. unfold generate_video_frames. rewrite H. reflexivity.
Qed.


(** ** Normalization *)

Section Normalization.

Variable U : UnicodeData.

Local Abbreviation ok := (fun c => allowed U c = true).

Lemma space_allowed : allowed U 32%N = true.
Proof. unfold allowed. destruct (isalnum U 32%N); reflexivity. Qed.

Lemma filter_text_allowed (t : str) : Forall ok (filter_text U t).
Proof.
  induction t as [|c t IH]; cbn; constructor; [|exact IH].
  destruct (allowed U c) eqn:E; [exact E|apply space_allowed].
Qed.

Lemma filter_text_fixed (t : str) : Forall ok t -> filter_text U t = t.
Proof.
  induction 1 as [|c t Hc _ IH]; cbn; [reflexivity|].
  rewrite Hc. f_equal. exact IH.
Qed.

Lemma lstrip_Forall (Q : char -> Prop) (t : str) :
  Forall Q t -> Forall Q (Py.lstrip t).
Proof.
  induction 1 as [|c t Hc Ht IH]; cbn; [constructor|].
  destruct (Py.isspace c); [exact IH|]. constructor; assumption.
Qed.

Lemma strip_Forall (Q : char -> Prop) (t : str) :
  Forall Q t -> Forall Q (Py.strip t).
Proof.
  intros H. unfold Py.strip, Py.rstrip.
  apply Forall_rev, lstrip_Forall, Forall_rev, lstrip_Forall. exact H.
Qed.

Lemma lstrip_idem (t : str) : Py.lstrip (Py.lstrip t) = Py.lstrip t.
Proof.
  induction t as [|c t IH]; cbn; [reflexivity|].
  destruct (Py.isspace c) eqn:E; [exact IH|]. cbn. rewrite E. reflexivity.
Qed.

Lemma rstrip_idem (t : str) : Py.rstrip (Py.rstrip t) = Py.rstrip t.
Proof.
  unfold Py.rstrip. rewrite rev_involutive, lstrip_idem. reflexivity.
Qed.

Lemma lstrip_snoc (t : str) (c : char) :
  Py.isspace c = false -> Py.lstrip (t ++ [c]) = Py.lstrip t ++ [c].
Proof.
  intros Hc. induction t as [|a t IH]; cbn.
  - rewrite Hc. reflexivity.
  - destruct (Py.isspace a); [exact IH|reflexivity].
Qed.

Lemma rstrip_cons (c : char) (t : str) :
  Py.isspace c = false -> Py.rstrip (c :: t) = c :: Py.rstrip t.
Proof.
  intros Hc. unfold Py.rstrip. cbn [rev].
  rewrite lstrip_snoc by exact Hc. rewrite rev_app_distr. reflexivity.
Qed.

Lemma strip_idem (t : str) : Py.strip (Py.strip t) = Py.strip t.
Proof.
  unfold Py.strip at 2 3. destruct (Py.lstrip t) as [|c r] eqn:E.
  - reflexivity.
  - pose proof (lstrip_head _ _ _ E) as Hc.
    rewrite rstrip_cons by exact Hc. unfold Py.strip. cbn [Py.lstrip].
    rewrite Hc. rewrite rstrip_cons by exact Hc. rewrite rstrip_idem.
    reflexivity.
Qed.

Lemma starts_with_incl (old t : str) :
  Py.starts_with old t = true -> forall c, In c old -> In c t.
Proof.
  revert t. induction old as [|p old IH]; intros t H c Hc; [destruct Hc|].
  destruct t as [|a t]; [discriminate H|]. cbn in H.
  apply andb_true_iff in H. destruct H as [Hp H]. apply N.eqb_eq in Hp.
  subst a. destruct Hc as [->|Hc]; [left; reflexivity|].
  right. exact (IH t H c Hc).
Qed.

(** [replace] leaves a text unchanged when [old] has a character that
    the text has not. *)
Lemma replace_absent (old new t : str) :
  (exists c, In c old /\ ~ In c t) -> Py.replace old new t = t.
Proof.
  intros [c [Hold Ht]]. unfold Py.replace.
  destruct old as [|p old']; [destruct Hold|].
  set (old := p :: old') in *. clearbody old.
  induction t as [|a t IH]; [reflexivity|]. cbn [Py.replace_go].
  destruct (Py.starts_with old (a :: t)) eqn:E.
  - exfalso. apply Ht. exact (starts_with_incl _ _ E c Hold).
  - f_equal. apply IH. intros H. apply Ht. right. exact H.
Qed.

Lemma convert_allowed_fixed (m : list (str * str)) (t : str) :
  forallb (fun e => existsb (fun c => negb (allowed U c)) (fst e)) m = true ->
  Forall ok t ->
  fold_left (fun text e => Py.replace (fst e) (snd e) text) m t = t.
Proof.
  intros Hm Ht. induction m as [|e m IH]; [reflexivity|].
  cbn [forallb] in Hm. apply andb_true_iff in Hm. destruct Hm as [He Hm].
  cbn [fold_left]. rewrite replace_absent; [exact (IH Hm)|].
  apply existsb_exists in He. destruct He as [c [Hc Hno]].
  exists c. split; [exact Hc|]. intros Hin.
  rewrite Forall_forall in Ht. rewrite (Ht c Hin) in Hno. discriminate Hno.
Qed.

Variable self : TextToVideoGenerator.

(** In [generate_video] the substitution finds nothing to replace: the
    filter has already turned every emoji into a space. *)
Lemma normalize_is_filter (x : str) :
  (convert_emojis self = true -> emoji_outside_allow_list U = true) ->
  normalize U self x = Py.strip (filter_text U x).
Proof.
  intros H. unfold normalize. rewrite strip_idem.
  destruct (negb (nonempty (Py.strip (filter_text U x)))); [reflexivity|].
  destruct (convert_emojis self); [|reflexivity].
  apply convert_allowed_fixed; [exact (H eq_refl)|].
  apply strip_Forall, filter_text_allowed.
Qed.

(** [normalize] is the text [generate_video] splits into paragraphs. *)
Lemma generate_video_frames_normalize (x : str) :
  generate_video_frames U self x =
  if negb (nonempty (Py.strip (Py.strip (filter_text U x)))) then [[]]
  else frames_of_paragraphs U self (paragraphs_of (normalize U self x)).
Proof.
  unfold generate_video_frames, split_text_into_frames, normalize.
  destruct (negb (nonempty (Py.strip (Py.strip (filter_text U x)))));
    reflexivity.
Qed.

End Normalization.

(** C9: normalization is idempotent.  The text [generate_video] hands to
    the paragraph split (filter, trim, then the substitution when enabled)
    is a fixed point of the same steps, for every text, with the
    substitution disabled, and enabled under Unicode tables in which no
    emoji of the table passes the filter (as none does). *)
Theorem normalize_idempotent (U : UnicodeData) (self : TextToVideoGenerator)
  (x : str) :
  (convert_emojis self = true -> emoji_outside_allow_list U = true) ->
  normalize U self (normalize U self x) = normalize U self x.
Proof.
  intros H. rewrite !(normalize_is_filter U self _ H).
  rewrite filter_text_fixed by (apply strip_Forall, filter_text_allowed).
  apply strip_idem.
Qed.

Lemma normalize_idempotent_witness :
  (convert_emojis small_generator = true ->
   emoji_outside_allow_list ucd_basic = true)
  /\ normalize ucd_basic small_generator
       (normalize ucd_basic small_generator wave_hi)
     = normalize ucd_basic small_generator wave_hi.
Proof.
  split.
  - intros _. reflexivity.
  - apply (normalize_idempotent ucd_basic small_generator wave_hi).
    intros _. reflexivity.
Defined.

(** ** The generators used in the examples *)

Lemma init_default : init 32 1920 1080 true = Some default_generator.
Proof. vm_compute. reflexivity. Qed.

Lemma init_small : init 32 270 110 true = Some small_generator.
Proof. vm_compute. reflexivity. Qed.

(** C1, on the code: [generate_video] filters before
    [split_text_into_frames] substitutes.  For "👋 hi" with the default
    generator (substitution enabled) the text handed to the paragraph split
    is "hi": it does not contain "[wave] hi", and the only frame is "hi"
    and its spacer.  The substitution alone turns the same text into
    "[wave] hi". *)
Theorem generate_video_erases_wave :
  convert_emojis default_generator = true
  /\ Py.strip (filter_text ucd_basic wave_hi) = lit "hi"
  /\ normalize ucd_basic default_generator wave_hi = lit "hi"
  /\ contains (lit "[wave] hi")
       (normalize ucd_basic default_generator wave_hi) = false
  /\ generate_video_frames ucd_basic default_generator wave_hi
     = [lit "hi" ++ NEWLINE]
  /\ convert_emojis_to_text wave_hi = lit "[wave] hi".
Proof. repeat split; reflexivity. Qed.

(** C2, on the code: the entries are applied in the order of the table,
    where 💻 and 🚀 come before the sequences that end in them.  "👨‍💻"
    becomes 👨, the joiner and "[computer]", and "👩‍🚀" becomes 👩, the
    joiner and "[rocket]"; the labels of the longer sequences never
    appear. *)
Theorem convert_emojis_shorter_entry_first :
  convert_emojis_to_text man_technologist
  = [0x1F468; 0x200D]%N ++ lit "[computer]"
  /\ contains (lit "[man technologist]")
       (convert_emojis_to_text man_technologist) = false
  /\ convert_emojis_to_text woman_astronaut
     = [0x1F469; 0x200D]%N ++ lit "[rocket]"
  /\ contains (lit "[woman astronaut]")
       (convert_emojis_to_text woman_astronaut) = false.
Proof. repeat split; reflexivity. Qed.

(** ** Instances of the pagination theorems *)

Lemma frames_within_line_budget_witness :
  (1 <= lines_per_frame small_generator
   /\ In (lit "A B C" ++ NEWLINE)
        (split_text_into_frames ucd_basic small_generator two_paragraphs))
  /\ line_count (lit "A B C" ++ NEWLINE) <= lines_per_frame small_generator.
Proof.
  assert (In (lit "A B C" ++ NEWLINE)
            (split_text_into_frames ucd_basic small_generator two_paragraphs))
    as Hin by (left; reflexivity).
  split.
  - split; [cbn; lia|exact Hin].
  - apply (frames_within_line_budget ucd_basic small_generator two_paragraphs);
      [cbn; lia|exact Hin].
Defined.

Lemma pagination_never_empty_witness :
  split_text_into_frames ucd_basic small_generator (lit "  ") = [[]]
  /\ split_text_into_frames ucd_basic small_generator (lit " ") = [[]]
  /\ generate_video_frames ucd_basic small_generator (lit " * ") = [[]].
Proof.
  split; [|split].
  - apply (proj1 (proj2 (proj2 (proj2
             (pagination_never_empty ucd_basic small_generator (lit "  ")))))).
    reflexivity.
  - apply (proj1 (proj2 (proj2 (proj2 (proj2
             (pagination_never_empty ucd_basic small_generator (lit " "))))))).
    repeat constructor.
  - apply (proj2 (proj2 (proj2 (proj2 (proj2
             (pagination_never_empty ucd_basic small_generator (lit " * "))))))).
    reflexivity.
Defined.


(** * Further properties *)

(** ** The derived geometry, continued *)

Lemma divisor_zero_iff (fs : Z) : 2 * fs / 3 = 0 <-> fs = 0 \/ fs = 1.
Proof.
  split.
  - intros E. destruct (Z.div_small_iff (2 * fs) 3 ltac:(lia)) as [Hs _].
    destruct (Hs E) as [?|?]; lia.
  - intros [->| ->]; reflexivity.
Qed.

(** X1: on a geometry of magnitudes below 2^50, [__init__] raises exactly
    for the font sizes 0, 1 and -10, the zeros of its two divisors, and
    what it raises is [ZeroDivisionError]; for a width of magnitude 2^1024
    or more it raises [OverflowError], whatever the rest. *)
Theorem init_raises_iff (fs w h : Z) (b : bool) :
  (Z.abs w < 2 ^ 50 -> Z.abs h < 2 ^ 50 -> Z.abs fs < 2 ^ 50 ->
   (init_outcome fs w h b = Raise ZeroDivisionError
    <-> fs = 0 \/ fs = 1 \/ fs = -10)
   /\ (init fs w h b = None <-> fs = 0 \/ fs = 1 \/ fs = -10))
  /\ (2 ^ 1024 <= Z.abs w -> init_outcome fs w h b = Raise OverflowError).
Proof.
  split.
  - intros Hw Hh Hfs. rewrite init_eq, init_outcome_bounded by assumption.
    destruct (2 * fs / 3 =? 0) eqn:E1; cbn [orb].
    + apply Z.eqb_eq, divisor_zero_iff in E1.
      split; (split; [intros _; lia|reflexivity]).
    + apply Z.eqb_neq in E1. rewrite divisor_zero_iff in E1.
      destruct (fs + 10 =? 0) eqn:E2.
      * apply Z.eqb_eq in E2. split; (split; [intros _; lia|reflexivity]).
      * apply Z.eqb_neq in E2. split; (split; [discriminate|lia]).
  - intros Hw. unfold init_outcome, Py.int_mul_float.
    rewrite float_of_int_overflow by exact Hw. reflexivity.
Qed.

Lemma init_raises_iff_witness :
  ((Z.abs 1920 < 2 ^ 50 /\ Z.abs 1080 < 2 ^ 50 /\ Z.abs 1 < 2 ^ 50)
   /\ 2 ^ 1024 <= Z.abs (2 ^ 1024))
  /\ init_outcome 1 1920 1080 true = Raise ZeroDivisionError
  /\ init_outcome 32 (2 ^ 1024) 1080 true = Raise OverflowError.
Proof.
  assert (Z.abs 1920 < 2 ^ 50) as Hw by reflexivity.
  assert (Z.abs 1080 < 2 ^ 50) as Hh by reflexivity.
  assert (Z.abs 1 < 2 ^ 50) as Hfs by reflexivity.
  assert (2 ^ 1024 <= Z.abs (2 ^ 1024)) as Hbig by (vm_compute; discriminate).
  split; [exact (conj (conj Hw (conj Hh Hfs)) Hbig)|]. split.
  - apply (proj1 (proj1 (init_raises_iff 1 1920 1080 true) Hw Hh Hfs)).
    right. left. reflexivity.
  - exact (proj2 (init_raises_iff 32 (2 ^ 1024) 1080 true) Hbig).
Defined.

Lemma init_fields (fs w h : Z) (b : bool) (g : TextToVideoGenerator) :
  0 <= w < 2 ^ 50 -> 0 <= h < 2 ^ 50 -> Z.abs fs < 2 ^ 50 ->
  init fs w h b = Some g ->
  chars_per_line g == inject_Z (Z.max 1 ((4 * w / 5) / (2 * fs / 3)))
  /\ lines_per_frame g = Z.max 1 ((4 * h / 5) / (fs + 10)).
Proof.
  intros Hw Hh Hfs. rewrite init_eq by lia. cbv zeta.
  rewrite (Z.quot_div_nonneg (4 * w) 5), (Z.quot_div_nonneg (4 * h) 5) by lia.
  set (c := 4 * w / 5 / (2 * fs / 3)). set (l := 4 * h / 5 / (fs + 10)).
  destruct (_ || _); [discriminate|].
  intros H. injection H as <-. cbn [chars_per_line lines_per_frame].
  split; [apply max_1_float_Z|reflexivity].
Qed.

(** X2: on geometries below 2^50, a wider or taller frame, or a smaller
    font of at least 2, never lowers [chars_per_line] or
    [lines_per_frame]. *)
Theorem init_monotone (fs fs' w w' h h' : Z) (b b' : bool)
  (g g' : TextToVideoGenerator) :
  2 <= fs' <= fs -> fs < 2 ^ 50 ->
  0 <= w <= w' -> w' < 2 ^ 50 ->
  0 <= h <= h' -> h' < 2 ^ 50 ->
  init fs w h b = Some g -> init fs' w' h' b' = Some g' ->
  (chars_per_line g <= chars_per_line g')%Q
  /\ lines_per_frame g <= lines_per_frame g'.
Proof.
  intros Hfs Hfsb Hw Hwb Hh Hhb Hg Hg'.
  destruct (init_fields fs w h b g ltac:(lia) ltac:(lia) ltac:(lia) Hg)
    as [Ec El].
  destruct (init_fields fs' w' h' b' g' ltac:(lia) ltac:(lia) ltac:(lia) Hg')
    as [Ec' El'].
  assert (0 < 2 * fs' / 3) as Hd'.
  { apply Z.div_str_pos. lia. }
  assert (2 * fs' / 3 <= 2 * fs / 3) as Hd by (apply Z.div_le_mono; lia).
  split.
  - rewrite Ec, Ec'. rewrite <- Zle_Qle. apply Z.max_le_compat_l.
    transitivity (4 * w / 5 / (2 * fs' / 3)).
    + apply Z.div_le_compat_l; [apply Z.div_pos; lia|lia].
    + apply Z.div_le_mono; [lia|]. apply Z.div_le_mono; lia.
  - rewrite El, El'. apply Z.max_le_compat_l.
    transitivity (4 * h / 5 / (fs' + 10)).
    + apply Z.div_le_compat_l; [apply Z.div_pos; lia|lia].
    + apply Z.div_le_mono; [lia|]. apply Z.div_le_mono; lia.
Qed.

(** ** The line wrapper, continued *)

Section SplitJoin.

Lemma split_go_word (w rest : str) :
  Forall not_space w ->
  Py.split_go (w ++ rest) =
  (w ++ fst (Py.split_go rest), snd (Py.split_go rest)).
Proof.
  induction 1 as [|c w Hc _ IH]; cbn [app].
  - destruct (Py.split_go rest); reflexivity.
  - cbn [Py.split_go]. rewrite IH. unfold not_space in Hc. rewrite Hc.
    reflexivity.
Qed.

Lemma split_word_space (w rest : str) :
  is_word w -> Py.split (w ++ SPACE ++ rest) = w :: Py.split rest.
Proof.
  intros [Hne Hw]. unfold Py.split. rewrite split_go_word by exact Hw.
  cbn [SPACE app Py.split_go]. destruct (Py.split_go rest) as [v vs].
  change (Py.isspace 32%N) with true. cbn [fst snd]. rewrite app_nil_r.
  unfold Py.cons_word at 1. destruct w; [congruence|reflexivity].
Qed.

Lemma split_word (w : str) : is_word w -> Py.split w = [w].
Proof.
  intros [Hne Hw]. unfold Py.split.
  rewrite <- (app_nil_r w) at 1. rewrite split_go_word by exact Hw.
  cbn. rewrite app_nil_r. unfold Py.cons_word.
  destruct w; [congruence|reflexivity].
Qed.

(** Splitting the join of words gives the words back. *)
Lemma split_join_words (ws : list str) :
  Forall is_word ws -> Py.split (Py.join SPACE ws) = ws.
Proof.
  induction 1 as [|w ws Hw Hws IH]; [reflexivity|].
  destruct ws as [|v ws].
  - apply split_word. exact Hw.
  - rewrite join_cons2, split_word_space by exact Hw. rewrite IH. reflexivity.
Qed.

End SplitJoin.

Section WrapMore.

Variable U : UnicodeData.
Variable budget : Q.

Local Abbreviation vw := (Spec.visual_width U).

Lemma greedy_words (words cur : list str) (cw : Z) :
  Forall is_word cur -> Forall is_word words ->
  flat_map Py.split (Spec.greedy U budget cur cw words) = cur ++ words.
Proof.
  revert cur cw. induction words as [|w words IH]; intros cur cw Hcur Hws.
  - cbn. destruct cur as [|p ps]; [reflexivity|]. cbn [flat_map].
    rewrite split_join_words by exact Hcur. reflexivity.
  - inversion Hws as [|? ? Hw Hrest]; subst. cbn [Spec.greedy].
    assert (Forall is_word [w]) as Hw1 by (constructor; [exact Hw|constructor]).
    destruct cur as [|p ps].
    + rewrite IH by assumption. reflexivity.
    + destruct (Qlt_le_dec _ _).
      * cbn [flat_map]. rewrite split_join_words by exact Hcur.
        rewrite IH by assumption. reflexivity.
      * rewrite IH; [|apply Forall_app; split; assumption|exact Hrest].
        rewrite <- app_assoc. reflexivity.
Qed.

Lemma greedy_length (words cur : list str) (cw : Z) :
  (List.length (Spec.greedy U budget cur cw words)
   <= List.length words + (if nonempty cur then 1 else 0))%nat.
Proof.
  revert cur cw. induction words as [|w words IH]; intros cur cw.
  - cbn. destruct cur; cbn; lia.
  - cbn [Spec.greedy]. destruct cur as [|p ps].
    + specialize (IH [w] (cw + vw w + 0)). cbn in *. lia.
    + destruct (Qlt_le_dec _ _).
      * specialize (IH [w] (vw w)). cbn in *. lia.
      * specialize (IH ((p :: ps) ++ [w]) (cw + vw w + 1)). cbn in *. lia.
Qed.

Lemma visual_width_join_app_le (a b : list str) :
  narrow_space U ->
  vw (Py.join SPACE a) <= vw (Py.join SPACE (a ++ b)).
Proof.
  intros Hsp. induction b as [|x b IH] using rev_ind.
  - rewrite app_nil_r. lia.
  - rewrite app_assoc, visual_width_join_snoc by exact Hsp.
    pose proof (visual_width_nonneg U x).
    destruct (nonempty (a ++ b)); lia.
Qed.

Lemma greedy_one_line (words cur : list str) (cw : Z) :
  narrow_space U ->
  cw = vw (Py.join SPACE cur) ->
  cur ++ words <> [] ->
  (inject_Z (vw (Py.join SPACE (cur ++ words))) <= budget)%Q ->
  Spec.greedy U budget cur cw words = [Py.join SPACE (cur ++ words)].
Proof.
  intros Hsp. revert cur cw.
  induction words as [|w words IH]; intros cur cw Hcw Hne Hfit.
  - rewrite app_nil_r in *. cbn. destruct cur; [congruence|reflexivity].
  - cbn [Spec.greedy]. destruct cur as [|p ps].
    + cbn [app]. apply (IH [w]); [cbn in *; lia|discriminate|exact Hfit].
    + destruct (Qlt_le_dec _ _) as [Hlt|_].
      * exfalso. apply (Qlt_not_le _ _ Hlt).
        apply (Qle_trans _ (inject_Z (vw (Py.join SPACE ((p :: ps) ++ w :: words))))) ;
          [|exact Hfit].
        rewrite <- Zle_Qle.
        pose proof (visual_width_join_app_le ((p :: ps) ++ [w]) words Hsp) as H.
        rewrite visual_width_join_snoc in H by exact Hsp.
        rewrite <- app_assoc in H. cbn [nonempty app] in *. lia.
      * replace ((p :: ps) ++ w :: words) with (((p :: ps) ++ [w]) ++ words)
          by (rewrite <- app_assoc; reflexivity).
        apply IH.
        -- rewrite visual_width_join_snoc by exact Hsp. cbn [nonempty]. lia.
        -- destruct words; discriminate.
        -- rewrite <- app_assoc. exact Hfit.
Qed.

Lemma greedy_all_wide (words : list str) :
  Forall (fun w => (budget < inject_Z (vw w))%Q) words ->
  Spec.greedy U budget [] 0 words = words.
Proof.
  induction 1 as [|w words Hw _ IH]; [reflexivity|].
  cbn [Spec.greedy]. replace (0 + vw w + 0) with (vw w) by lia.
  rewrite greedy_after_wide by exact Hw. rewrite IH. reflexivity.
Qed.

Lemma word_visual_width_pos (w : str) : w <> [] -> 1 <= vw w.
Proof.
  destruct w as [|c w]; [congruence|]. intros _. cbn.
  pose proof (char_units_pos U c). pose proof (visual_width_nonneg U w). lia.
Qed.

Lemma greedy_first (words : list str) (c0 : str) (cs : list str) (cw : Z) :
  Forall is_word (c0 :: cs) -> Forall is_word words ->
  exists l ls more,
    Spec.greedy U budget (c0 :: cs) cw words = l :: ls
    /\ Py.split l = c0 :: more.
Proof.
  revert cs cw. induction words as [|w words IH]; intros cs cw Hcur Hws.
  - exists (Py.join SPACE (c0 :: cs)), [], cs. split; [reflexivity|].
    apply split_join_words. exact Hcur.
  - inversion Hws as [|? ? Hw Hrest]; subst. cbn [Spec.greedy].
    destruct (Qlt_le_dec _ _).
    + eexists _, _, cs. split; [reflexivity|].
      apply split_join_words. exact Hcur.
    + apply (IH (cs ++ [w])); [|exact Hrest].
      change (c0 :: cs ++ [w]) with ((c0 :: cs) ++ [w]).
      apply Forall_app. split; [exact Hcur|]. constructor; [exact Hw|constructor].
Qed.

(** Where the packing breaks a line, the first word of the next line did
    not fit on it. *)
Lemma greedy_break (words cur : list str) (cw : Z) :
  narrow_space U ->
  Forall is_word cur -> Forall is_word words ->
  cw = vw (Py.join SPACE cur) ->
  forall pre a c post,
    Spec.greedy U budget cur cw words = pre ++ a :: c :: post ->
    exists w more,
      Py.split c = w :: more /\ (budget < inject_Z (vw a + 1 + vw w))%Q.
Proof.
  intros Hsp. revert cur cw.
  induction words as [|w words IH]; intros cur cw Hcur Hws Hcw pre a c post E.
  - cbn in E. destruct cur; destruct pre as [|? [|? ?]]; discriminate E.
  - apply Forall_cons_iff in Hws. destruct Hws as [Hw Hrest].
    assert (Forall is_word [w]) as Hw1 by (constructor; [exact Hw|constructor]).
    cbn [Spec.greedy] in E. destruct cur as [|p ps].
    + apply (IH [w] _ Hw1 Hrest) in E; [exact E|]. subst cw. cbn. lia.
    + destruct (Qlt_le_dec _ _) as [Hlt|_].
      * remember (Py.join SPACE (p :: ps)) as j eqn:Ej.
        destruct pre as [|x pre]; cbn [app] in E.
        -- injection E as Ea Ec.
           destruct (greedy_first words w [] (vw w) Hw1 Hrest)
             as [l [ls [more [El Es]]]].
           rewrite El in Ec. injection Ec as -> _.
           exists w, more. split; [exact Es|].
           subst a cw. replace (vw j + 1 + vw w) with (vw j + vw w + 1) by lia.
           exact Hlt.
        -- injection E as _ E.
           exact (IH [w] (vw w) Hw1 Hrest eq_refl pre a c post E).
      * apply (IH ((p :: ps) ++ [w]) _) in E; [exact E| |exact Hrest|].
        -- apply Forall_app. split; assumption.
        -- rewrite visual_width_join_snoc by exact Hsp. subst cw.
           cbn [nonempty]. reflexivity.
Qed.

(** X7: the width the wrapper gives a word lies between its number of
    characters and twice that number. *)
Theorem word_width_bounds (w : str) :
  Z.of_nat (List.length w) <= word_width U w <= 2 * Z.of_nat (List.length w).
Proof.
  rewrite word_width_visual. induction w as [|c w IH].
  - cbn. lia.
  - cbn [Spec.visual_width List.length]. unfold Spec.char_units at 1 2.
    destruct (category_So U c || east_asian_FW U c); lia.
Qed.

End WrapMore.

(** ** The frame paginator, continued *)

Section FullFrames.

Variable P : str -> Prop.
Hypothesis P_line : forall l, P l -> is_line l.
Variable self : TextToVideoGenerator.
Hypothesis capacity : 1 <= lines_per_frame self.

Local Abbreviation lpf := (lines_per_frame self).
Local Abbreviation cap := (Z.max 1 (lines_per_frame self)).
Local Abbreviation full := (full_frame P (lines_per_frame self)).

Lemma buffer_lines (buf : list str) :
  buf <> [] -> good_buf P buf -> frame_lines (Py.join NEWLINE buf) = buf.
Proof.
  intros Hne Hbuf. unfold frame_lines.
  pose proof (good_buf_join_nonempty P P_line buf Hne Hbuf) as Hj.
  destruct (Py.join NEWLINE buf) as [|c t] eqn:E; [congruence|].
  rewrite <- E. apply split_lines_join; [exact Hne|].
  apply (good_buf_no_newline P P_line). exact Hbuf.
Qed.

Lemma full_frame_count (f : str) : full f -> line_count f = lpf.
Proof.
  intros [buf [Hbuf [Hlen ->]]]. unfold line_count.
  rewrite buffer_lines; [exact Hlen| |exact Hbuf].
  destruct buf; [cbn in Hlen; lia|discriminate].
Qed.

Lemma frame_add_line_full (st : FrameState) (l : str) :
  frame_inv P cap st -> Forall full (frames st) ->
  Forall full (frames (frame_add_line self st l)).
Proof.
  intros [Hcount [Hbuf [Hlen _]]] Hfull. unfold frame_add_line.
  destruct ((current_line_count st + 1 >? lpf)
            && nonempty (current_frame_lines st)) eqn:E; [|exact Hfull].
  apply andb_true_iff in E. destruct E as [Hgt _].
  rewrite Z.gtb_ltb in Hgt. apply Z.ltb_lt in Hgt.
  cbn [frames]. apply Forall_app. split; [exact Hfull|].
  constructor; [|constructor].
  exists (current_frame_lines st). repeat split; [exact Hbuf|lia].
Qed.

Lemma frame_add_lines_full (ls : list str) (st : FrameState) :
  frame_inv P cap st -> Forall full (frames st) -> Forall P ls ->
  Forall full (frames (fold_left (frame_add_line self) ls st)).
Proof.
  revert st. induction ls as [|l ls IH]; intros st Hinv Hfull Hls;
    [exact Hfull|].
  apply Forall_cons_iff in Hls. destruct Hls as [Hl Hls]. cbn [fold_left].
  apply IH; [|apply frame_add_line_full; assumption|exact Hls].
  exact (proj1 (frame_add_line_inv P self st l Hinv Hl)).
Qed.

Variable U : UnicodeData.

Local Abbreviation wrapped p :=
  (wrap_text_with_emoji_support U p (chars_per_line self)).

Lemma frame_add_paragraph_frames (st : FrameState) (p : str) :
  frames (frame_add_paragraph U self st p)
  = frames (fold_left (frame_add_line self) (wrapped p) st).
Proof.
  unfold frame_add_paragraph. destruct (_ <? _); reflexivity.
Qed.

Lemma frame_add_paragraphs_full (ps : list str) (st : FrameState) :
  frame_inv P cap st -> Forall full (frames st) ->
  (forall p, In p ps -> wrapped p <> [] /\ Forall P (wrapped p)) ->
  Forall full (frames (fold_left (frame_add_paragraph U self) ps st)).
Proof.
  revert st. induction ps as [|p ps IH]; intros st Hinv Hfull Hps;
    [exact Hfull|].
  destruct (Hps p (or_introl eq_refl)) as [Hne Hls]. cbn [fold_left].
  apply IH.
  - apply (frame_add_paragraph_inv P self U); assumption.
  - rewrite frame_add_paragraph_frames.
    apply frame_add_lines_full; assumption.
  - intros q Hq. apply Hps. right. exact Hq.
Qed.

Lemma initial_frame_inv :
  frame_inv P cap
    {| frames := []; current_frame_lines := []; current_line_count := 0 |}.
Proof. repeat split; cbn; try lia; constructor. Qed.

Lemma frames_of_paragraphs_full (ps : list str) (fs : list str) (last : str) :
  (forall p, In p ps -> wrapped p <> [] /\ Forall P (wrapped p)) ->
  frames_of_paragraphs U self ps = fs ++ [last] ->
  Forall full fs.
Proof.
  intros Hps. unfold frames_of_paragraphs.
  pose proof (frame_add_paragraphs_full ps _ initial_frame_inv
                (Forall_nil _) Hps) as Hfull.
  set (st := fold_left (frame_add_paragraph U self) ps _) in *.
  destruct (current_frame_lines st) as [|l r]; cbn [nonempty].
  - destruct (frames st) as [|f0 fr] eqn:E; cbn [nonempty]; intros H.
    + destruct fs as [|? [|? ?]]; [constructor|discriminate H|discriminate H].
    + rewrite H in Hfull. apply Forall_app in Hfull. exact (proj1 Hfull).
  - destruct (frames st ++ [Py.join NEWLINE (l :: r)]) as [|f0 fr] eqn:E;
      cbn [nonempty]; intros H.
    + destruct (frames st); discriminate E.
    + rewrite <- E in H. apply app_inj_tail in H. destruct H as [<- _].
      exact Hfull.
Qed.

End FullFrames.

Section LineOrder.

Variable P : str -> Prop.
Hypothesis P_line : forall l, P l -> is_line l.
Variable self : TextToVideoGenerator.
Variable U : UnicodeData.

Local Abbreviation cap := (Z.max 1 (lines_per_frame self)).
Local Abbreviation wrapped p :=
  (wrap_text_with_emoji_support U p (chars_per_line self)).
Local Abbreviation shown ls := (filter (@nonempty char) ls).

Lemma shown_lines (ls : list str) : Forall P ls -> shown ls = ls.
Proof.
  induction 1 as [|l ls Hl _ IH]; [reflexivity|]. cbn [filter].
  destruct l; [exfalso; exact (proj1 (P_line _ Hl) eq_refl)|].
  cbn [nonempty]. rewrite IH. reflexivity.
Qed.

Lemma shown_snoc_blank (ls : list str) : shown (ls ++ [[]]) = shown ls.
Proof. rewrite filter_app. cbn. apply app_nil_r. Qed.

Lemma shown_app_lines (ls ws : list str) :
  Forall P ws -> shown (ls ++ ws) = shown ls ++ ws.
Proof.
  intros H. induction ls as [|l ls IH]; cbn [app filter].
  - apply shown_lines. exact H.
  - destruct (nonempty l); [cbn [app]; f_equal|]; exact IH.
Qed.

Lemma lines_placed_add_line (st : FrameState) (l : str) :
  frame_inv P cap st ->
  lines_placed (frame_add_line self st l) = lines_placed st ++ [l].
Proof.
  intros [_ [Hbuf _]]. unfold frame_add_line, lines_placed.
  destruct ((current_line_count st + 1 >? lines_per_frame self)
            && nonempty (current_frame_lines st)) eqn:E.
  - apply andb_true_iff in E. destruct E as [_ Hne].
    cbn [frames current_frame_lines]. rewrite flat_map_app. cbn [flat_map].
    rewrite (buffer_lines P P_line); [|destruct (current_frame_lines st); [discriminate Hne|discriminate]|exact Hbuf].
    cbn [app]. rewrite app_nil_r. reflexivity.
  - cbn [frames current_frame_lines]. rewrite app_assoc. reflexivity.
Qed.

Lemma lines_placed_add_lines (ls : list str) (st : FrameState) :
  frame_inv P cap st -> Forall P ls ->
  lines_placed (fold_left (frame_add_line self) ls st) = lines_placed st ++ ls.
Proof.
  revert st. induction ls as [|l ls IH]; intros st Hinv Hls.
  - rewrite app_nil_r. reflexivity.
  - apply Forall_cons_iff in Hls. destruct Hls as [Hl Hls]. cbn [fold_left].
    rewrite IH; [|exact (proj1 (frame_add_line_inv P self st l Hinv Hl))|exact Hls].
    rewrite lines_placed_add_line by exact Hinv.
    rewrite <- app_assoc. reflexivity.
Qed.

Lemma lines_placed_add_paragraph (st : FrameState) (p : str) :
  frame_inv P cap st -> Forall P (wrapped p) ->
  shown (lines_placed (frame_add_paragraph U self st p))
  = shown (lines_placed st) ++ wrapped p.
Proof.
  intros Hinv Hls.
  pose proof (lines_placed_add_lines (wrapped p) st Hinv Hls) as H.
  unfold frame_add_paragraph.
  set (st1 := fold_left (frame_add_line self) _ st) in *.
  destruct (current_line_count st1 <? lines_per_frame self).
  - unfold lines_placed in *. cbn [frames current_frame_lines].
    rewrite app_assoc, H.
    etransitivity; [apply shown_snoc_blank|].
    apply shown_app_lines. exact Hls.
  - rewrite H. apply shown_app_lines. exact Hls.
Qed.

Lemma lines_placed_add_paragraphs (ps : list str) (st : FrameState) :
  frame_inv P cap st ->
  (forall p, In p ps -> wrapped p <> [] /\ Forall P (wrapped p)) ->
  shown (lines_placed (fold_left (frame_add_paragraph U self) ps st))
  = shown (lines_placed st) ++ flat_map (fun p => wrapped p) ps.
Proof.
  revert st. induction ps as [|p ps IH]; intros st Hinv Hps.
  - cbn. rewrite app_nil_r. reflexivity.
  - destruct (Hps p (or_introl eq_refl)) as [Hne Hls]. cbn [fold_left flat_map].
    rewrite IH.
    + rewrite lines_placed_add_paragraph by assumption.
      rewrite <- app_assoc. reflexivity.
    + apply (frame_add_paragraph_inv P self U); assumption.
    + intros q Hq. apply Hps. right. exact Hq.
Qed.

Lemma frames_of_paragraphs_lines (ps : list str) :
  (forall p, In p ps -> wrapped p <> [] /\ Forall P (wrapped p)) ->
  shown (flat_map frame_lines (frames_of_paragraphs U self ps))
  = flat_map (fun p => wrapped p) ps.
Proof.
  intros Hps.
  pose proof (lines_placed_add_paragraphs ps _
                (initial_frame_inv P self) Hps) as H.
  pose proof (frame_add_paragraphs_inv P self U ps _
                (initial_frame_inv P self) Hps) as [_ [Hbuf _]].
  unfold frames_of_paragraphs.
  set (st := fold_left (frame_add_paragraph U self) ps _) in *.
  cbn [lines_placed frames current_frame_lines flat_map app filter] in H.
  rewrite <- H. unfold lines_placed.
  destruct (current_frame_lines st) as [|l r] eqn:E; cbn [nonempty].
  - rewrite app_nil_r. destruct (frames st); reflexivity.
  - destruct (frames st ++ [Py.join NEWLINE (l :: r)]) as [|f0 fr] eqn:E';
      cbn [nonempty].
    + destruct (frames st); discriminate E'.
    + rewrite <- E', flat_map_app. cbn [flat_map].
      rewrite (buffer_lines P P_line); [|discriminate|exact Hbuf].
      rewrite app_nil_r. reflexivity.
Qed.

End LineOrder.

(** ** Substitution and filter, continued *)

Section Replace.

Variables old new : str.
Hypothesis new_nonempty : new <> [].

Lemma starts_with_nil (t : str) : Py.starts_with [] t = true.
Proof. destruct t; reflexivity. Qed.

Lemma apart_tail (a : char) (p q : str) : apart (a :: p) q -> apart p q.
Proof. intros H c Hc. apply H. right. exact Hc. Qed.

(** A pattern apart from [new] that starts the replaced text started the
    text. *)
Lemma starts_with_replace_go (r p : str) :
  apart p new ->
  Py.starts_with p (Py.replace_go old new 0 r) = true ->
  Py.starts_with p r = true.
Proof.
  revert p. induction r as [|c r IH]; intros p Hp H.
  - exact H.
  - destruct p as [|a p]; [reflexivity|]. cbn [Py.replace_go] in H.
    destruct (Py.starts_with old (c :: r)).
    + exfalso. destruct new as [|n new']; [congruence|].
      cbn in H. apply andb_true_iff in H. destruct H as [H _].
      apply N.eqb_eq in H. subst n. apply (Hp a); left; reflexivity.
    + cbn in H |- *. apply andb_true_iff in H. destruct H as [Ha H].
      rewrite Ha. cbn. apply IH; [exact (apart_tail _ _ _ Hp)|exact H].
Qed.

Lemma contains_app_apart (k x : str) (pre : str) :
  k <> [] -> apart k pre ->
  contains k (pre ++ x) = contains k x.
Proof.
  intros Hk. induction pre as [|n pre IH]; intros Hp; [reflexivity|].
  cbn [app contains]. rewrite IH.
  - destruct k as [|a k]; [congruence|]. cbn [Py.starts_with].
    destruct (N.eqb_spec a n) as [->|_]; [|reflexivity].
    exfalso. apply (Hp n); left; reflexivity.
  - intros c Hc Hin. apply (Hp c Hc). right. exact Hin.
Qed.

Lemma contains_cons_false (k : str) (c : char) (r : str) :
  contains k (c :: r) = false ->
  Py.starts_with k (c :: r) = false /\ contains k r = false.
Proof. cbn [contains]. apply orb_false_iff. Qed.

Lemma starts_with_cons_replace (k : str) (c : char) (r : str) :
  apart k new ->
  Py.starts_with k (c :: Py.replace_go old new 0 r) = true ->
  Py.starts_with k (c :: r) = true.
Proof.
  intros Hk H. destruct k as [|a k]; [reflexivity|]. cbn in H |- *.
  apply andb_true_iff in H. destruct H as [Ha H]. rewrite Ha. cbn.
  apply starts_with_replace_go; [exact (apart_tail _ _ _ Hk)|exact H].
Qed.

(** A replacement creates no occurrence of a pattern apart from [new]. *)
Lemma contains_replace_go (k : str) (t : str) (skip : nat) :
  k <> [] -> apart k new ->
  contains k t = false ->
  contains k (Py.replace_go old new skip t) = false.
Proof.
  intros Hk Hap. revert skip. induction t as [|c r IH]; intros skip H.
  - exact H.
  - apply contains_cons_false in H. destruct H as [Hs Hr].
    cbn [Py.replace_go]. destruct skip as [|skip]; [|apply IH; exact Hr].
    destruct (Py.starts_with old (c :: r)).
    + rewrite contains_app_apart by assumption. apply IH. exact Hr.
    + cbn [contains]. rewrite (IH 0%nat Hr), orb_false_r.
      destruct (Py.starts_with k (c :: Py.replace_go old new 0 r)) eqn:E;
        [|reflexivity].
      rewrite (starts_with_cons_replace k c r Hap E) in Hs. discriminate Hs.
Qed.

(** After the replacement [old] occurs no more. *)
Lemma contains_replace_self (t : str) (skip : nat) :
  old <> [] -> apart old new ->
  contains old (Py.replace_go old new skip t) = false.
Proof.
  intros Hold Hap. revert skip. induction t as [|c r IH]; intros skip.
  - cbn. destruct old; [congruence|reflexivity].
  - cbn [Py.replace_go]. destruct skip as [|skip]; [|apply IH].
    destruct (Py.starts_with old (c :: r)) eqn:Es.
    + rewrite contains_app_apart by assumption. apply IH.
    + cbn [contains]. rewrite (IH 0%nat), orb_false_r.
      destruct (Py.starts_with old (c :: Py.replace_go old new 0 r)) eqn:E;
        [|reflexivity].
      rewrite (starts_with_cons_replace old c r Hap E) in Es. discriminate Es.
Qed.

End Replace.

Lemma replace_no_occurrence (old new t : str) :
  contains old t = false -> Py.replace old new t = t.
Proof.
  destruct old as [|p old'].
  - destruct t; discriminate.
  - unfold Py.replace. set (old := p :: old'). clearbody old.
    induction t as [|c r IH]; intros H; [reflexivity|].
    apply contains_cons_false in H. destruct H as [Hs Hr].
    cbn [Py.replace_go]. rewrite Hs. f_equal. exact (IH Hr).
Qed.

Section Table.

Local Abbreviation step :=
  (fun (text : str) (e : str * str) => Py.replace (fst e) (snd e) text).

Lemma table_separated_cons (e : str * str) (m : list (str * str)) :
  table_separated (e :: m) = true ->
  (fst e <> [] /\ snd e <> []
   /\ Forall (fun c => (128 <= c)%N) (fst e)
   /\ Forall (fun c => (c < 128)%N) (snd e))
  /\ table_separated m = true.
Proof.
  destruct e as [k l]. cbn [table_separated forallb fst snd]. intros H.
  apply andb_true_iff in H. destruct H as [H Hm]. split; [|exact Hm].
  apply andb_true_iff in H. destruct H as [H Hl].
  apply andb_true_iff in H. destruct H as [H Hk].
  apply andb_true_iff in H. destruct H as [Hn1 Hn2].
  repeat split.
  - destruct k; [discriminate Hn1|discriminate].
  - destruct l; [discriminate Hn2|discriminate].
  - apply Forall_forall. intros c Hc.
    rewrite forallb_forall in Hk. apply N.leb_le. exact (Hk c Hc).
  - apply Forall_forall. intros c Hc.
    rewrite forallb_forall in Hl. apply N.ltb_lt. exact (Hl c Hc).
Qed.

Lemma high_apart_low (k l : str) :
  Forall (fun c => (128 <= c)%N) k -> Forall (fun c => (c < 128)%N) l ->
  apart k l.
Proof.
  intros Hk Hl c Hc Hin. rewrite Forall_forall in Hk, Hl.
  specialize (Hk c Hc). specialize (Hl c Hin). lia.
Qed.

Lemma replace_keeps_absent (e : str * str) (k t : str) :
  fst e <> [] -> snd e <> [] ->
  Forall (fun c => (c < 128)%N) (snd e) ->
  k <> [] -> Forall (fun c => (128 <= c)%N) k ->
  contains k t = false -> contains k (step t e) = false.
Proof.
  intros He1 He2 Hl Hk Hhigh H. cbv beta. unfold Py.replace.
  destruct (fst e) as [|p old']; [congruence|].
  apply contains_replace_go; [exact He2|exact Hk| |exact H].
  apply high_apart_low; assumption.
Qed.

Lemma fold_keeps_absent (m : list (str * str)) (k t : str) :
  table_separated m = true ->
  k <> [] -> Forall (fun c => (128 <= c)%N) k ->
  contains k t = false -> contains k (fold_left step m t) = false.
Proof.
  revert t. induction m as [|e m IH]; intros t Hm Hk Hhigh H; [exact H|].
  apply table_separated_cons in Hm. destruct Hm as [[He1 [He2 [_ Hl]]] Hm].
  cbn [fold_left]. apply IH; [exact Hm|exact Hk|exact Hhigh|].
  apply replace_keeps_absent; assumption.
Qed.

Lemma fold_removes_keys (m : list (str * str)) (t : str) :
  table_separated m = true ->
  Forall (fun e => contains (fst e) (fold_left step m t) = false) m.
Proof.
  revert t. induction m as [|e m IH]; intros t Hm; [constructor|].
  pose proof Hm as Hm0.
  apply table_separated_cons in Hm. destruct Hm as [[He1 [He2 [Hk Hl]]] Hm].
  cbn [fold_left]. constructor; [|apply IH; exact Hm].
  apply fold_keeps_absent; [exact Hm|exact He1|exact Hk|].
  cbv beta. unfold Py.replace. destruct (fst e) as [|p old'] eqn:E;
    [congruence|].
  apply contains_replace_self; [exact He2|discriminate|].
  apply high_apart_low; assumption.
Qed.

Lemma fold_fixed (m : list (str * str)) (t : str) :
  Forall (fun e => contains (fst e) t = false) m -> fold_left step m t = t.
Proof.
  induction 1 as [|e m He _ IH]; [reflexivity|].
  cbn [fold_left]. rewrite replace_no_occurrence by exact He. exact IH.
Qed.

Lemma fold_fixed_low (m : list (str * str)) (t : str) :
  table_keys_high m = true ->
  Forall (fun c => (c < 0x2600)%N) t ->
  fold_left step m t = t.
Proof.
  intros Hm Ht. induction m as [|e m IH]; [reflexivity|].
  cbn [table_keys_high forallb] in Hm. apply andb_true_iff in Hm.
  destruct Hm as [He Hm]. cbn [fold_left].
  rewrite replace_absent; [exact (IH Hm)|].
  apply existsb_exists in He. destruct He as [c [Hc Hhigh]].
  exists c. split; [exact Hc|]. intros Hin.
  rewrite Forall_forall in Ht. specialize (Ht c Hin).
  apply N.leb_le in Hhigh. lia.
Qed.

End Table.

(** X13: after [convert_emojis_to_text] no key of [emoji_map] occurs in
    the text. *)
Theorem convert_removes_every_key (text : str) (e : str * str) :
  In e emoji_map -> contains (fst e) (convert_emojis_to_text text) = false.
Proof.
  intros He.
  pose proof (fold_removes_keys emoji_map text eq_refl) as H.
  rewrite Forall_forall in H. exact (H e He).
Qed.

(** X14: [convert_emojis_to_text] is idempotent. *)
Theorem convert_idempotent (text : str) :
  convert_emojis_to_text (convert_emojis_to_text text)
  = convert_emojis_to_text text.
Proof.
  unfold convert_emojis_to_text at 1. apply fold_fixed.
  apply (fold_removes_keys emoji_map text eq_refl).
Qed.

(** X15: [convert_emojis_to_text] returns unchanged a text whose code
    points are all below U+2600. *)
Theorem convert_leaves_low_text (text : str) :
  Forall (fun c => (c < 0x2600)%N) text ->
  convert_emojis_to_text text = text.
Proof. apply fold_fixed_low. reflexivity. Qed.

Section Filter.

Variable U : UnicodeData.

(** X11: the filter of [generate_video] keeps the length of the text and
    every allowed character in its place, puts a space at every other
    place, leaves only allowed characters and is idempotent. *)
Theorem filter_text_shape (t : str) :
  List.length (filter_text U t) = List.length t
  /\ Forall (fun c => allowed U c = true) (filter_text U t)
  /\ (forall i, nth i (filter_text U t) 32%N
                = if allowed U (nth i t 32%N) then nth i t 32%N else 32%N)
  /\ filter_text U (filter_text U t) = filter_text U t.
Proof.
  split; [apply length_map|]. split; [apply filter_text_allowed|]. split.
  - intros i. unfold filter_text.
    rewrite <- (map_nth (fun c => if allowed U c then c else 32%N)).
    rewrite (space_allowed U). reflexivity.
  - apply filter_text_fixed, filter_text_allowed.
Qed.

(** X10: [split_text_into_frames] ignores leading and trailing
    whitespace, so the trim in [generate_video] changes nothing: the frames
    it renders are those of the filtered text. *)
Theorem generate_video_frames_strip (self : TextToVideoGenerator) (x : str) :
  split_text_into_frames U self (Py.strip x) = split_text_into_frames U self x
  /\ generate_video_frames U self x
     = split_text_into_frames U self (filter_text U x).
Proof.
  assert (forall y, split_text_into_frames U self (Py.strip y)
                    = split_text_into_frames U self y) as H.
  { intros y. unfold split_text_into_frames. rewrite strip_idem.
    reflexivity. }
  split; [apply H|]. unfold generate_video_frames. apply H.
Qed.

(** X12: under Unicode tables in which no emoji of the table passes the
    filter, [generate_video] renders the same frames with the substitution
    enabled and disabled. *)
Theorem keep_emojis_no_effect (fs w h : Z) (g1 g2 : TextToVideoGenerator)
  (x : str) :
  emoji_outside_allow_list U = true ->
  init fs w h true = Some g1 -> init fs w h false = Some g2 ->
  generate_video_frames U g1 x = generate_video_frames U g2 x.
Proof.
  intros HU H1 H2.
  destruct (init_flag fs w h true false g1 H1) as [_ [l [_ E]]].
  rewrite E in H2. injection H2 as <-. destruct g1.
  cbn [font_size width height text_width text_height chars_per_line
       lines_per_frame].
  rewrite !generate_video_frames_normalize.
  destruct (negb _); [reflexivity|].
  rewrite !normalize_is_filter by (intros _; exact HU).
  reflexivity.
Qed.

End Filter.

(** ** Fonts and file names *)

Section Fonts.

Variable path_exists : str -> bool.

Lemma first_existing_some (fonts : list str) (font : str) :
  first_existing path_exists fonts = Some font ->
  exists pre post,
    fonts = pre ++ font :: post /\ path_exists font = true
    /\ Forall (fun g => path_exists g = false) pre.
Proof.
  induction fonts as [|f fonts IH]; cbn; [discriminate|].
  destruct (path_exists f) eqn:E.
  - intros H. injection H as <-. exists [], fonts. repeat split; [exact E|constructor].
  - intros H. destruct (IH H) as [pre [post [-> [Hf Hpre]]]].
    exists (f :: pre), post. repeat split; [exact Hf|].
    constructor; assumption.
Qed.

Lemma first_existing_none (fonts : list str) :
  first_existing path_exists fonts = None ->
  Forall (fun g => path_exists g = false) fonts.
Proof.
  induction fonts as [|f fonts IH]; cbn; [constructor|].
  destruct (path_exists f) eqn:E; [discriminate|].
  intros H. constructor; [exact E|exact (IH H)].
Qed.

Lemma first_existing_first (pre post : list str) (font : str) :
  Forall (fun g => path_exists g = false) pre -> path_exists font = true ->
  first_existing path_exists (pre ++ font :: post) = Some font.
Proof.
  induction 1 as [|g pre Hg _ IH]; intros Hf; cbn.
  - rewrite Hf. reflexivity.
  - rewrite Hg. exact (IH Hf).
Qed.

Lemma fallback_listed : In fallback_font emoji_fonts.
Proof. do 4 right. left. reflexivity. Qed.

(** X16: [find_emoji_compatible_font] always returns one of the six
    candidates; the path it returns exists exactly when some candidate
    exists, and it is then the first existing candidate. *)
Theorem find_font_first_existing :
  In (find_emoji_compatible_font path_exists) emoji_fonts
  /\ (path_exists (find_emoji_compatible_font path_exists) = true
      <-> exists font, In font emoji_fonts /\ path_exists font = true)
  /\ (forall pre font post,
        emoji_fonts = pre ++ font :: post ->
        Forall (fun g => path_exists g = false) pre ->
        path_exists font = true ->
        find_emoji_compatible_font path_exists = font).
Proof.
  unfold find_emoji_compatible_font.
  destruct (first_existing path_exists emoji_fonts) as [font|] eqn:E.
  - destruct (first_existing_some _ _ E) as [pre [post [Efonts [Hf Hpre]]]].
    split; [|split].
    + rewrite Efonts. apply in_or_app. right. left. reflexivity.
    + split; [|intros _; exact Hf].
      intros _. exists font. split; [|exact Hf].
      rewrite Efonts. apply in_or_app. right. left. reflexivity.
    + intros pre' font' post' E' Hpre' Hf'.
      rewrite E', (first_existing_first _ _ _ Hpre' Hf') in E.
      injection E as ->. reflexivity.
  - pose proof (first_existing_none _ E) as Hnone.
    rewrite Forall_forall in Hnone. split; [|split].
    + exact fallback_listed.
    + rewrite (Hnone _ fallback_listed). split; [discriminate|].
      intros [font [Hin Hf]]. rewrite (Hnone _ Hin) in Hf. discriminate Hf.
    + intros pre font post E' _ Hf. exfalso.
      rewrite (Hnone font) in Hf; [discriminate Hf|].
      rewrite E'. apply in_or_app. right. left. reflexivity.
Qed.

End Fonts.

Section FrameNames.

Lemma digits_value_uint (d : Decimal.uint) (acc : nat) :
  digits_value (uint_digits d) acc = Nat.of_uint_acc d acc.
Proof.
  revert acc.
  induction d; intros acc; cbn [uint_digits digits_value Nat.of_uint_acc];
    [reflexivity|..];
    match goal with
    | |- context [(N.to_nat ?c - 48)%nat] =>
        let v := eval vm_compute in (N.to_nat c - 48)%nat in
        change (N.to_nat c - 48)%nat with v
    end;
    rewrite IHd, Nat.tail_mul_spec; f_equal; lia.
Qed.

Lemma digits_value_zeros (k : nat) (s : str) :
  digits_value (repeat 48%N k ++ s) 0 = digits_value s 0.
Proof. induction k as [|k IH]; [reflexivity|]. cbn. exact IH. Qed.

Lemma format_04d_value (i : nat) : digits_value (format_04d i) 0 = i.
Proof.
  unfold format_04d. rewrite digits_value_zeros, digits_value_uint.
  exact (DecimalNat.Unsigned.of_to i).
Qed.

(** The file name of a frame determines its index. *)
Lemma frame_file_name_injective (i j : nat) :
  frame_file_name i = frame_file_name j -> i = j.
Proof.
  unfold frame_file_name. intros H. apply app_inv_head in H.
  apply app_inv_tail in H.
  rewrite <- (format_04d_value i), <- (format_04d_value j), H. reflexivity.
Qed.

(** X17: the files [generate_video] writes for the frames of one run have
    pairwise distinct names, however many frames there are. *)
Theorem frame_file_names_distinct (n : nat) :
  NoDup (map frame_file_name (seq 0 n)).
Proof.
  generalize 0%nat as start. induction n as [|n IH]; intros start; cbn.
  - constructor.
  - constructor; [|apply IH].
    intros Hin. apply in_map_iff in Hin. destruct Hin as [j [Hj Hin]].
    apply frame_file_name_injective in Hj. apply in_seq in Hin. lia.
Qed.

End FrameNames.

(** ** What the wrapper and the paginator keep *)

(** X3: wrapping keeps the words of the text, whole and in order: the
    words of the lines, one line after the other, are the words of the
    text; and there are at most as many lines as words. *)
Theorem wrap_keeps_words (U : UnicodeData) (text : str) (budget : Q) :
  flat_map Py.split (wrap_text_with_emoji_support U text budget)
  = Py.split text
  /\ (List.length (wrap_text_with_emoji_support U text budget)
      <= List.length (Py.split text))%nat.
Proof.
  unfold wrap_text_with_emoji_support. rewrite wrap_words_greedy. split.
  - apply greedy_words; [constructor|apply split_ok].
  - pose proof (greedy_length U budget (Py.split text) [] 0) as H.
    cbn [nonempty] in H. lia.
Qed.

(** X4: when the space is narrow in the Unicode table, a text with at
    least one word whose words, joined by single spaces, fit the budget is
    wrapped into that single line. *)
Theorem wrap_single_line (U : UnicodeData) (text : str) (budget : Q) :
  narrow_space U ->
  Py.split text <> [] ->
  (inject_Z (word_width U (Py.join SPACE (Py.split text))) <= budget)%Q ->
  wrap_text_with_emoji_support U text budget
  = [Py.join SPACE (Py.split text)].
Proof.
  intros Hsp Hne Hfit. unfold wrap_text_with_emoji_support.
  rewrite wrap_words_greedy. rewrite word_width_visual in Hfit.
  apply (greedy_one_line U budget (Py.split text) [] 0 Hsp);
    [reflexivity|exact Hne|exact Hfit].
Qed.

Lemma wrap_single_line_witness :
  (narrow_space ucd_basic
   /\ Py.split (lit "  hello   world ") <> []
   /\ (inject_Z (word_width ucd_basic
                   (Py.join SPACE (Py.split (lit "  hello   world "))))
       <= 11)%Q)
  /\ wrap_text_with_emoji_support ucd_basic (lit "  hello   world ") 11
     = [Py.join SPACE (Py.split (lit "  hello   world "))].
Proof.
  assert (narrow_space ucd_basic) as Hsp by (split; reflexivity).
  assert (Py.split (lit "  hello   world ") <> []) as Hne by discriminate.
  assert (inject_Z (word_width ucd_basic
                      (Py.join SPACE (Py.split (lit "  hello   world "))))
          <= 11)%Q as Hfit by discriminate.
  split; [repeat split; assumption|].
  exact (wrap_single_line ucd_basic (lit "  hello   world ") 11 Hsp Hne Hfit).
Defined.

(** X5: when every word is wider than the budget, as every word is for a
    budget below 1, each word is a line of its own: the wrapped lines are
    the words. *)
Theorem wrap_narrow_budget (U : UnicodeData) (text : str) (budget : Q) :
  ((forall w, In w (Py.split text) ->
      (budget < inject_Z (word_width U w))%Q) ->
   wrap_text_with_emoji_support U text budget = Py.split text)
  /\ ((budget < 1)%Q ->
      wrap_text_with_emoji_support U text budget = Py.split text).
Proof.
  assert ((forall w, In w (Py.split text) ->
             (budget < inject_Z (word_width U w))%Q) ->
          wrap_text_with_emoji_support U text budget = Py.split text) as H.
  { intros Hw. unfold wrap_text_with_emoji_support.
    rewrite wrap_words_greedy. apply greedy_all_wide.
    apply Forall_forall. intros w Hin. rewrite <- word_width_visual.
    exact (Hw w Hin). }
  split; [exact H|]. intros Hb. apply H. intros w Hin.
  apply (Qlt_le_trans _ 1); [exact Hb|].
  change 1%Q with (inject_Z 1). rewrite <- Zle_Qle, word_width_visual.
  apply word_visual_width_pos.
  pose proof (split_ok text) as Hok. rewrite Forall_forall in Hok.
  exact (proj1 (Hok w Hin)).
Qed.

Lemma wrap_narrow_budget_witness :
  wrap_text_with_emoji_support ucd_basic (lit "to be or not") 1
  = Py.split (lit "to be or not")
  /\ wrap_text_with_emoji_support ucd_basic (lit "to be or not") 0
     = Py.split (lit "to be or not").
Proof.
  split.
  - apply (proj1 (wrap_narrow_budget ucd_basic (lit "to be or not") 1)).
    intros w [<-|[<-|[<-|[<-|[]]]]]; reflexivity.
  - apply (proj2 (wrap_narrow_budget ucd_basic (lit "to be or not") 0)).
    reflexivity.
Defined.

(** X6: when the space is narrow in the Unicode table, the wrapper breaks
    a line only when it must: the first word of a line did not fit at the
    end of the line before it, joining space included. *)
Theorem wrap_breaks_only_when_full (U : UnicodeData) (text : str)
  (budget : Q) (pre : list str) (a c : str) (post : list str) :
  narrow_space U ->
  wrap_text_with_emoji_support U text budget = pre ++ a :: c :: post ->
  exists w more,
    Py.split c = w :: more
    /\ (budget < inject_Z (word_width U a + 1 + word_width U w))%Q.
Proof.
  intros Hsp E. unfold wrap_text_with_emoji_support in E.
  rewrite wrap_words_greedy in E.
  destruct (greedy_break U budget (Py.split text) [] 0 Hsp
              (Forall_nil _) (split_ok text) eq_refl pre a c post E)
    as [w [more [Es Hlt]]].
  exists w, more. split; [exact Es|].
  rewrite !word_width_visual. exact Hlt.
Qed.

Lemma wrap_breaks_only_when_full_witness :
  (narrow_space ucd_basic
   /\ wrap_text_with_emoji_support ucd_basic (lit "to be or not to be") 8
      = [] ++ lit "to be or" :: lit "not to" :: [lit "be"])
  /\ exists w more,
       Py.split (lit "not to") = w :: more
       /\ (8 < inject_Z (word_width ucd_basic (lit "to be or") + 1
                         + word_width ucd_basic w))%Q.
Proof.
  assert (narrow_space ucd_basic) as Hsp by (split; reflexivity).
  assert (wrap_text_with_emoji_support ucd_basic (lit "to be or not to be") 8
          = [] ++ lit "to be or" :: lit "not to" :: [lit "be"]) as E
    by reflexivity.
  split; [split; assumption|].
  exact (wrap_breaks_only_when_full ucd_basic (lit "to be or not to be") 8
           [] (lit "to be or") (lit "not to") [lit "be"] Hsp E).
Defined.

Lemma paragraphs_wrap (U : UnicodeData) (self : TextToVideoGenerator)
  (text p : str) :
  In p (paragraphs_of text) ->
  wrap_text_with_emoji_support U p (chars_per_line self) <> []
  /\ Forall is_line (wrap_text_with_emoji_support U p (chars_per_line self)).
Proof.
  intros Hp. split.
  - exact (paragraph_wrap_nonempty U text p _ Hp).
  - apply wrap_lines.
Qed.

(** X8: with [lines_per_frame] at least 1, every frame but the last shows
    exactly [lines_per_frame] lines: a frame is closed only when full. *)
Theorem closed_frames_full (U : UnicodeData) (self : TextToVideoGenerator)
  (text : str) (fs : list str) (last : str) :
  1 <= lines_per_frame self ->
  split_text_into_frames U self text = fs ++ [last] ->
  Forall (fun f => line_count f = lines_per_frame self) fs.
Proof.
  intros Hcap. unfold split_text_into_frames.
  destruct (negb (nonempty (Py.strip text))).
  - intros E. destruct fs as [|? [|? ?]]; [constructor|discriminate E..].
  - intros E.
    apply (Forall_impl _ (full_frame_count is_line (fun l H => H) self Hcap)).
    refine (frames_of_paragraphs_full is_line self Hcap U _ fs last _ E).
    intros p Hp. exact (paragraphs_wrap U self _ p Hp).
Qed.

Lemma closed_frames_full_witness :
  (1 <= lines_per_frame small_generator
   /\ split_text_into_frames ucd_basic small_generator two_paragraphs
      = [lit "A B C" ++ NEWLINE] ++ [lit "D E" ++ NEWLINE])
  /\ Forall (fun f => line_count f = lines_per_frame small_generator)
       [lit "A B C" ++ NEWLINE].
Proof.
  assert (1 <= lines_per_frame small_generator) as Hcap by (cbn; lia).
  assert (split_text_into_frames ucd_basic small_generator two_paragraphs
          = [lit "A B C" ++ NEWLINE] ++ [lit "D E" ++ NEWLINE]) as E
    by reflexivity.
  split; [split; assumption|].
  exact (closed_frames_full ucd_basic small_generator two_paragraphs
           [lit "A B C" ++ NEWLINE] (lit "D E" ++ NEWLINE) Hcap E).
Defined.

(** X9: the frames keep the wrapped lines, all of them and in order: the
    non-blank lines of the frames, one frame after the other, are the
    wrapped lines of the paragraphs of the prepared text, one paragraph
    after the other. *)
Theorem frames_keep_wrapped_lines (U : UnicodeData)
  (self : TextToVideoGenerator) (text : str) :
  filter nonempty (flat_map frame_lines (split_text_into_frames U self text))
  = flat_map
      (fun p => wrap_text_with_emoji_support U p (chars_per_line self))
      (paragraphs_of (prepared_text self text)).
Proof.
  unfold split_text_into_frames, prepared_text.
  destruct (Py.strip text) as [|c t] eqn:E; cbn [nonempty negb].
  - destruct (convert_emojis self); reflexivity.
  - apply (frames_of_paragraphs_lines is_line (fun l H => H) self U).
    intros p Hp. exact (paragraphs_wrap U self _ p Hp).
Qed.

(** ** Instances *)

Lemma init_monotone_witness :
  exists g,
    ((2 <= 32 <= 48 /\ 48 < 2 ^ 50)
     /\ (0 <= 1280 <= 1920 /\ 1920 < 2 ^ 50)
     /\ (0 <= 720 <= 1080 /\ 1080 < 2 ^ 50)
     /\ init 48 1280 720 true = Some g
     /\ init 32 1920 1080 true = Some default_generator)
    /\ (chars_per_line g <= chars_per_line default_generator)%Q
    /\ lines_per_frame g <= lines_per_frame default_generator.
Proof.
  assert (2 <= 32 <= 48) as Hfs by (split; discriminate).
  assert (48 < 2 ^ 50) as Hfsb by reflexivity.
  assert (0 <= 1280 <= 1920) as Hw by (split; discriminate).
  assert (1920 < 2 ^ 50) as Hwb by reflexivity.
  assert (0 <= 720 <= 1080) as Hh by (split; discriminate).
  assert (1080 < 2 ^ 50) as Hhb by reflexivity.
  assert (init 32 1920 1080 true = Some default_generator) as Hg'
    by (vm_compute; reflexivity).
  eexists. split.
  - split; [exact (conj Hfs Hfsb)|]. split; [exact (conj Hw Hwb)|].
    split; [exact (conj Hh Hhb)|]. split; [vm_compute; reflexivity|exact Hg'].
  - apply (init_monotone 48 32 1280 1920 720 1080 true true _ default_generator
             Hfs Hfsb Hw Hwb Hh Hhb); [vm_compute; reflexivity|exact Hg'].
Defined.

Lemma keep_emojis_no_effect_witness :
  (emoji_outside_allow_list ucd_basic = true
   /\ init 32 270 110 true = Some small_generator)
  /\ forall g2,
       init 32 270 110 false = Some g2 ->
       generate_video_frames ucd_basic small_generator wave_hi
       = generate_video_frames ucd_basic g2 wave_hi.
Proof.
  split; [split; reflexivity|]. intros g2.
  apply (keep_emojis_no_effect ucd_basic 32 270 110 small_generator g2 wave_hi);
    reflexivity.
Defined.

Lemma convert_removes_every_key_witness :
  In (man_technologist, lit "[man technologist]") emoji_map
  /\ contains man_technologist (convert_emojis_to_text man_technologist)
     = false.
Proof.
  assert (In (man_technologist, lit "[man technologist]") emoji_map) as Hin.
  { unfold emoji_map. apply in_or_app with (l := firstn 39 emoji_map)
      (m := skipn 39 emoji_map). right. left. reflexivity. }
  split; [exact Hin|].
  exact (convert_removes_every_key man_technologist _ Hin).
Defined.

Lemma convert_leaves_low_text_witness :
  Forall (fun c => (c < 0x2600)%N) (lit "plain text, no emoji")
  /\ convert_emojis_to_text (lit "plain text, no emoji")
     = lit "plain text, no emoji".
Proof.
  assert (Forall (fun c => (c < 0x2600)%N) (lit "plain text, no emoji"))
    as H by (repeat constructor).
  split; [exact H|].
  exact (convert_leaves_low_text (lit "plain text, no emoji") H).
Defined.

Lemma find_font_first_existing_witness :
  find_emoji_compatible_font only_ttf_dejavu
  = lit "/usr/share/fonts/TTF/DejaVuSans.ttf".
Proof.
  apply (proj2 (proj2 (find_font_first_existing only_ttf_dejavu))
           (firstn 5 emoji_fonts) _ []).
  - reflexivity.
  - repeat constructor.
  - reflexivity.
Defined.

(** ** Paragraphs and the shape of a line *)

(** X18: the paragraphs the paginator wraps are never empty and have no
    leading or trailing whitespace. *)
Theorem paragraphs_stripped_nonempty (text p : str) :
  In p (paragraphs_of text) -> p <> [] /\ Py.strip p = p.
Proof.
  intros Hp. destruct (paragraph_stripped text p Hp) as [q [-> Hq]].
  split; [exact Hq|apply strip_idem].
Qed.

Lemma paragraphs_stripped_nonempty_witness :
  In (lit "D E") (paragraphs_of two_paragraphs)
  /\ lit "D E" <> [] /\ Py.strip (lit "D E") = lit "D E".
Proof.
  assert (In (lit "D E") (paragraphs_of two_paragraphs)) as Hin
    by (right; left; reflexivity).
  split; [exact Hin|].
  exact (paragraphs_stripped_nonempty two_paragraphs (lit "D E") Hin).
Defined.

Lemma greedy_joined (U : UnicodeData) (budget : Q) (words cur : list str)
  (cw : Z) :
  Forall is_word words -> Forall is_word cur ->
  Forall (fun l => Py.join SPACE (Py.split l) = l)
    (Spec.greedy U budget cur cw words).
Proof.
  revert cur cw. induction words as [|w words IH]; intros cur cw Hws Hcur.
  - cbn. destruct cur as [|p ps]; constructor; [|constructor].
    rewrite split_join_words by exact Hcur. reflexivity.
  - apply Forall_cons_iff in Hws. destruct Hws as [Hw Hrest].
    assert (Forall is_word [w]) as Hw1 by (constructor; [exact Hw|constructor]).
    cbn [Spec.greedy]. destruct cur as [|p ps].
    + apply IH; assumption.
    + destruct (Qlt_le_dec _ _).
      * constructor; [|apply IH; assumption].
        rewrite split_join_words by exact Hcur. reflexivity.
      * apply IH; [exact Hrest|]. apply Forall_app. split; assumption.
Qed.

(** X19: every wrapped line is its own words joined by single spaces:
    whatever whitespace separated the words in the text, a line has no
    leading, trailing or repeated whitespace. *)
Theorem wrapped_lines_single_spaced (U : UnicodeData) (text : str)
  (budget : Q) (l : str) :
  In l (wrap_text_with_emoji_support U text budget) ->
  Py.join SPACE (Py.split l) = l.
Proof.
  unfold wrap_text_with_emoji_support. rewrite wrap_words_greedy.
  pose proof (greedy_joined U budget (Py.split text) [] 0 (split_ok text)
                (Forall_nil _)) as H.
  rewrite Forall_forall in H. apply H.
Qed.

Lemma wrapped_lines_single_spaced_witness :
  In (lit "hello world")
    (wrap_text_with_emoji_support ucd_basic
       (9%N :: lit "hello" ++ [10; 32; 32]%N ++ lit "world ") 11)
  /\ Py.join SPACE (Py.split (lit "hello world")) = lit "hello world".
Proof.
  assert (In (lit "hello world")
            (wrap_text_with_emoji_support ucd_basic
               (9%N :: lit "hello" ++ [10; 32; 32]%N ++ lit "world ") 11))
    as Hin by (left; reflexivity).
  split; [exact Hin|].
  exact (wrapped_lines_single_spaced ucd_basic _ 11 (lit "hello world") Hin).
Defined.
